(** * ARnft-Babylon.js: the scene renderer [SceneRendererBJS]

    A shallow embedding of [src/SceneRendererBJS.js].

    - The scene graph (meshes, materials, textures, animation groups) and the
      event target ([window]) are one explicit [Store]; objects are referred
      to by their index in the store, so that aliasing ([model.mesh] is the
      very object found in [data.meshes]) is kept.
    - An [async] method is a function [Store -> Promise A * Store]: a [throw]
      or a rejected [await] settles the promise as [Rejected].
    - The closures registered with [addEventListener] are the constructors of
      [Listener]; [handle] runs one of them, [dispatchEvent] runs all the
      listeners registered for an event type, in registration order.
    - JavaScript numbers are an interface ([JsNumber]) whose instance is the
      binary64 floats; the math helpers of the rendering engine are an
      interface too ([Engine]), whose instance follows the engine's
      algorithms in binary64 arithmetic. *)

From Stdlib Require Import Floats Uint63 SpecFloat.
From Stdlib Require Import ZArith Lia String Ascii.
From stdpp Require Import base option list gmap.

Local Open Scope string_scope.
Local Open Scope list_scope.

(** ** JavaScript values that reach the renderer *)

Inductive JsVal : Type :=
| VUndefined
| VString (s : string)
| VElement (e : nat).          (* a DOM element (video or image), by handle *)

Definition typeof (v : JsVal) : string :=
  match v with
  | VUndefined => "undefined"
  | VString _ => "string"
  | VElement _ => "object"
  end.

(** [ToString], as applied by [+] with a string operand and by template
    literals. *)
Definition ToString (v : JsVal) : string :=
  match v with
  | VUndefined => "undefined"
  | VString s => s
  | VElement _ => "[object HTMLElement]"
  end.

Inductive Error : Type :=
| TypeError (msg : string)
| LoadError (reason : string).

Inductive Promise (A : Type) : Type :=
| Fulfilled (a : A)
| Rejected (e : Error).
Arguments Fulfilled {A} a.
Arguments Rejected {A} e.

(** ** Numbers *)

Class JsNumber (num : Type) : Type := {
  num_of_int : Z -> num;          (* the integer literals 0, 1, 2, 9, 10, 15, 16, 60 *)
  num_2_54 : num;                 (* the literal [2.54] *)
  Math_PI : num;
  NaN : num;                      (* what [undefined] is as a number *)
  fround : num -> num;            (* the value a [Float32Array] keeps *)
  mul : num -> num -> num;
  div : num -> num -> num
}.

Record Vector3 (num : Type) : Type := mkVector3 { vx : num; vy : num; vz : num }.
Arguments mkVector3 {num} vx vy vz.
Arguments vx {num} v.
Arguments vy {num} v.
Arguments vz {num} v.

Record Quaternion (num : Type) : Type :=
  mkQuaternion { qx : num; qy : num; qz : num; qw : num }.
Arguments mkQuaternion {num} qx qy qz qw.
Arguments qx {num} q.
Arguments qy {num} q.
Arguments qz {num} q.
Arguments qw {num} q.

(** A [Matrix] holds its sixteen entries [m[0..15]] as a list. *)
Definition Matrix (num : Type) : Type := list num.

(** The math of the rendering engine used by the pose listener. *)
Class Engine (num : Type) : Type := {
  Matrix_getRotationMatrix : Matrix num -> Matrix num;
  Quaternion_fromRotationMatrix : Matrix num -> Quaternion num;
  Quaternion_toEulerAngles : Quaternion num -> Vector3 num;
  Vector3_TransformCoordinates : Vector3 num -> Matrix num -> Vector3 num
}.

(** A node of an asset: its id and name, its parent and its material, both
    by their position in the asset. *)
Record AssetMesh : Type := mkAssetMesh {
  am_id : string;
  am_name : string;
  am_parent : option nat;
  am_material : option nat
}.

(** What the asset importer hands back for a URL: the nodes, the animation
    groups (name, playing), the names of the materials and of the textures of
    the asset. *)
Record Asset : Type := mkAsset {
  asset_meshes : list AssetMesh;
  asset_animationGroups : list (string * bool);
  asset_materials : list string;
  asset_textures : list string
}.

(** The environment of the page: what the importer answers for a URL,
    whether the browser manages to load a texture source, and whether the
    graphics device can write the fragment depth
    ([engine.getCaps().fragmentDepthSupported]). *)
Record World : Type := mkWorld {
  fetch : string -> Error + Asset;
  textureLoads : JsVal -> bool;
  fragmentDepthSupported : bool
}.

Record SceneRendererBJS : Type := mkRenderer { uuid : string }.

(** ** The numbers of JavaScript *)

Definition float_of_int (z : Z) : float :=
  match z with
  | Zneg _ => PrimFloat.opp (PrimFloat.of_uint63 (Uint63.of_Z (Z.opp z)))
  | _ => PrimFloat.of_uint63 (Uint63.of_Z z)
  end.

(** The binary32 value nearest to a double (ties to even, overflow to an
    infinity), as a double: what storing into a [Float32Array] keeps. *)
Definition float_fround (x : float) : float :=
  match Prim2SF x with
  | S754_finite s m e =>
      SF2Prim (binary_normalize 24 128 (if s then Z.neg m else Z.pos m) e s)
  | _ => x
  end.

(** IEEE 754 binary64; [2.54] and [Math.PI] are the doubles nearest to
    them. *)
#[export] Instance float_JsNumber : JsNumber float := {|
  num_of_int := float_of_int;
  num_2_54 := 0x1.451eb851eb852p+1%float;
  Math_PI := 0x1.921fb54442d18p+1%float;
  NaN := nan;
  fround := float_fround;
  mul := PrimFloat.mul;
  div := PrimFloat.div
|}.

(** [Math.atan2] and [Math.asin]: ECMAScript leaves their values to the
    implementation, but for some arguments (the zeros among them).  The
    engine below takes them as a parameter. *)
Record MathLib : Type := mkMathLib {
  Math_atan2 : float -> float -> float;
  Math_asin : float -> float
}.

(** ** The engine's math

    Modelled from the spec: [Matrix.getRotationMatrix],
    [Quaternion.fromRotationMatrix], [Quaternion.toEulerAngles] and
    [Vector3.TransformCoordinates] are functions of the rendering engine
    ([@babylonjs/core]), which is not part of [src].  Section 4.1 of the spec
    names them: the rotation block of the matrix, the conversion to a
    quaternion that branches on the trace and then on the largest diagonal
    entry, the conversion to Euler angles, and the origin transformed by the
    full matrix.  The definitions follow the engine's algorithms operation by
    operation, in binary64 arithmetic; a matrix keeps its entries in a
    [Float32Array]. *)

Module Babylon.
Local Open Scope float_scope.

(** [matrix.m[i]] *)
Definition m (M : Matrix float) (i : nat) : float := nth i M nan.

Definition Matrix_Identity : Matrix float :=
  [1; 0; 0; 0;  0; 1; 0; 0;  0; 0; 1; 0;  0; 0; 0; 1].

Definition determinant (M : Matrix float) : float :=
  let m00 := m M 0 in let m01 := m M 1 in let m02 := m M 2 in let m03 := m M 3 in
  let m10 := m M 4 in let m11 := m M 5 in let m12 := m M 6 in let m13 := m M 7 in
  let m20 := m M 8 in let m21 := m M 9 in let m22 := m M 10 in let m23 := m M 11 in
  let m30 := m M 12 in let m31 := m M 13 in let m32 := m M 14 in let m33 := m M 15 in
  let det_22_33 := m22 * m33 - m32 * m23 in
  let det_21_33 := m21 * m33 - m31 * m23 in
  let det_21_32 := m21 * m32 - m31 * m22 in
  let det_20_33 := m20 * m33 - m30 * m23 in
  let det_20_32 := m20 * m32 - m22 * m30 in
  let det_20_31 := m20 * m31 - m30 * m21 in
  let cofact_00 := m11 * det_22_33 - m12 * det_21_33 + m13 * det_21_32 in
  let cofact_01 := - (m10 * det_22_33 - m12 * det_20_33 + m13 * det_20_32) in
  let cofact_02 := m10 * det_21_33 - m11 * det_20_33 + m13 * det_20_31 in
  let cofact_03 := - (m10 * det_21_32 - m11 * det_20_32 + m12 * det_20_31) in
  m00 * cofact_00 + m01 * cofact_01 + m02 * cofact_02 + m03 * cofact_03.

(** The scale part of [matrix.decompose]: the lengths of the three axes, the
    second one negated for a matrix that is not orientation preserving. *)
Definition decompose_scale (M : Matrix float) : Vector3 float :=
  let sx := PrimFloat.sqrt (m M 0 * m M 0 + m M 1 * m M 1 + m M 2 * m M 2) in
  let sy := PrimFloat.sqrt (m M 4 * m M 4 + m M 5 * m M 5 + m M 6 * m M 6) in
  let sz := PrimFloat.sqrt (m M 8 * m M 8 + m M 9 * m M 9 + m M 10 * m M 10) in
  mkVector3 sx (if determinant M <=? 0 then sy * -1 else sy) sz.

(** [matrix.getRotationMatrix()]: the upper-left block with the scale divided
    out, stored into a new matrix; the identity when an axis has length
    zero. *)
Definition getRotationMatrix (M : Matrix float) : Matrix float :=
  let scale := decompose_scale M in
  if (vx scale =? 0) || (vy scale =? 0) || (vz scale =? 0)
  then Matrix_Identity
  else
    let sx := 1 / vx scale in
    let sy := 1 / vy scale in
    let sz := 1 / vz scale in
    float_fround <$>
      [ m M 0 * sx; m M 1 * sx; m M 2 * sx; 0;
        m M 4 * sy; m M 5 * sy; m M 6 * sy; 0;
        m M 8 * sz; m M 9 * sz; m M 10 * sz; 0;
        0; 0; 0; 1 ].

(** [quaternion.fromRotationMatrix(matrix)]: the branch is chosen by the
    trace, then by the largest diagonal entry. *)
Definition fromRotationMatrix (M : Matrix float) : Quaternion float :=
  let m11 := m M 0 in let m12 := m M 4 in let m13 := m M 8 in
  let m21 := m M 1 in let m22 := m M 5 in let m23 := m M 9 in
  let m31 := m M 2 in let m32 := m M 6 in let m33 := m M 10 in
  let trace := m11 + m22 + m33 in
  if 0 <? trace then
    let s := 0.5 / PrimFloat.sqrt (trace + 1) in
    mkQuaternion ((m32 - m23) * s) ((m13 - m31) * s) ((m21 - m12) * s) (0.25 / s)
  else if (m22 <? m11) && (m33 <? m11) then
    let s := 2 * PrimFloat.sqrt (1 + m11 - m22 - m33) in
    mkQuaternion (0.25 * s) ((m12 + m21) / s) ((m13 + m31) / s) ((m32 - m23) / s)
  else if m33 <? m22 then
    let s := 2 * PrimFloat.sqrt (1 + m22 - m11 - m33) in
    mkQuaternion ((m12 + m21) / s) (0.25 * s) ((m23 + m32) / s) ((m13 - m31) / s)
  else
    let s := 2 * PrimFloat.sqrt (1 + m33 - m11 - m22) in
    mkQuaternion ((m13 + m31) / s) ((m23 + m32) / s) (0.25 * s) ((m21 - m12) / s).

(** [quaternion.toEulerAngles()]: beyond the limit the angles are clamped to
    a quarter turn about [x]. *)
Definition toEulerAngles (lib : MathLib) (q : Quaternion float) : Vector3 float :=
  let zAxisY := qy q * qz q - qx q * qw q in
  let limit := 0x1.fffff94a03595p-2 in          (* 0.4999999 *)
  if zAxisY <? - limit then
    mkVector3 (Math_PI / 2) (2 * Math_atan2 lib (qy q) (qw q)) 0
  else if limit <? zAxisY then
    mkVector3 (- Math_PI / 2) (2 * Math_atan2 lib (qy q) (qw q)) 0
  else
    let sqw := qw q * qw q in
    let sqz := qz q * qz q in
    let sqx := qx q * qx q in
    let sqy := qy q * qy q in
    mkVector3 (Math_asin lib (-2 * zAxisY))
              (Math_atan2 lib (2 * (qz q * qx q + qy q * qw q))
                          (sqz - sqx - sqy + sqw))
              (Math_atan2 lib (2 * (qx q * qy q + qz q * qw q))
                          (- sqz - sqx + sqy + sqw)).

(** [Vector3.TransformCoordinates(vector, transformation)]: the point is
    multiplied by the full matrix and by the inverse of the resulting [w]. *)
Definition TransformCoordinates (v : Vector3 float) (M : Matrix float)
  : Vector3 float :=
  let rx := vx v * m M 0 + vy v * m M 4 + vz v * m M 8 + m M 12 in
  let ry := vx v * m M 1 + vy v * m M 5 + vz v * m M 9 + m M 13 in
  let rz := vx v * m M 2 + vy v * m M 6 + vz v * m M 10 + m M 14 in
  let rw := 1 / (vx v * m M 3 + vy v * m M 7 + vz v * m M 11 + m M 15) in
  mkVector3 (rx * rw) (ry * rw) (rz * rw).

(** The engine on a platform with the math library [lib]. *)
Definition engine (lib : MathLib) : Engine float := {|
  Matrix_getRotationMatrix := getRotationMatrix;
  Quaternion_fromRotationMatrix := fromRotationMatrix;
  Quaternion_toEulerAngles := toEulerAngles lib;
  Vector3_TransformCoordinates := TransformCoordinates
|}.

End Babylon.

Section Renderer.

Context {num : Type} {NUM : JsNumber num} {ENG : Engine num}.

(** ** The store *)

Inductive MaterialRef : Type :=
| IsMaterial (i : nat)         (* an index into [materials] *)
| IsTexture (i : nat).         (* an index into [textures] *)

Record Mesh : Type := mkMesh {
  mesh_name : string;
  mesh_id : string;
  mesh_parent : option nat;
  mesh_enabled : bool;
  mesh_rotation : Vector3 num;
  mesh_position : Vector3 num;
  mesh_scaling : Vector3 num;
  mesh_plane : option (num * num);       (* width and height of a plane *)
  mesh_material : option MaterialRef;
  mesh_disposed : bool
}.

Record Color3 : Type := mkColor3 { cr : num; cg : num; cb : num }.

Record StandardMaterial : Type := mkMaterial {
  mat_name : string;
  diffuseColor : Color3;
  emissiveTexture : option nat;
  useLogarithmicDepth : bool
}.

Inductive Texture : Type :=
| VideoTexture (name : string) (src : JsVal)
    (generateMipMaps invertY autoUpdateTexture : bool)
| ImageTexture (url : option JsVal) (noMipmap invertY : bool)
    (buffer : option JsVal)
| ImportedTexture (name : string)      (* a texture of an imported asset *)
| EnvironmentBRDFTexture.              (* the engine's, one for a scene *)

Record AnimationGroup : Type := mkAnimationGroup {
  ag_name : string;
  ag_playing : bool
}.

(** The closures handed to [addEventListener]. *)
Inductive Listener : Type :=
| OnMatrix (root : nat)                          (* _addRoot, first listener *)
| OnTrackingLost (root : nat) (visibility : bool) (* _addRoot, second listener *)
| OnNFTData_model (mesh : nat)                   (* addModel *)
| OnNFTData_video (plane : nat)                  (* addVideo *)
| OnNFTData_image (plane : nat).                 (* addImage *)

Record Store : Type := mkStore {
  meshes : list Mesh;
  materials : list StandardMaterial;
  textures : list Texture;
  animationGroups : list AnimationGroup;
  listeners : list (string * Listener);
  requests : list string               (* the URLs handed to the importer *)
}.

(** The store left by the constructor: an empty scene, no listener. *)
Definition initialStore : Store := mkStore [] [] [] [] [] [].

Definition constructor (canvas : nat) (uuid : string) : SceneRendererBJS * Store :=
  (mkRenderer uuid, initialStore).

Definition set_meshes (f : list Mesh -> list Mesh) (st : Store) : Store :=
  mkStore (f (meshes st)) (materials st) (textures st) (animationGroups st)
          (listeners st) (requests st).
Definition set_materials (f : list StandardMaterial -> list StandardMaterial)
    (st : Store) : Store :=
  mkStore (meshes st) (f (materials st)) (textures st) (animationGroups st)
          (listeners st) (requests st).
Definition set_textures (f : list Texture -> list Texture) (st : Store) : Store :=
  mkStore (meshes st) (materials st) (f (textures st)) (animationGroups st)
          (listeners st) (requests st).
Definition set_animationGroups (f : list AnimationGroup -> list AnimationGroup)
    (st : Store) : Store :=
  mkStore (meshes st) (materials st) (textures st) (f (animationGroups st))
          (listeners st) (requests st).
Definition set_listeners (f : list (string * Listener) -> list (string * Listener))
    (st : Store) : Store :=
  mkStore (meshes st) (materials st) (textures st) (animationGroups st)
          (f (listeners st)) (requests st).
Definition set_requests (f : list string -> list string) (st : Store) : Store :=
  mkStore (meshes st) (materials st) (textures st) (animationGroups st)
          (listeners st) (f (requests st)).

(** [mesh.field = v] on the mesh at index [i]. *)
Definition updMesh (i : nat) (f : Mesh -> Mesh) (st : Store) : Store :=
  set_meshes (alter f i) st.

Definition with_name (s : string) (m : Mesh) : Mesh :=
  mkMesh s (mesh_id m) (mesh_parent m) (mesh_enabled m) (mesh_rotation m)
         (mesh_position m) (mesh_scaling m) (mesh_plane m) (mesh_material m)
         (mesh_disposed m).
Definition with_id (s : string) (m : Mesh) : Mesh :=
  mkMesh (mesh_name m) s (mesh_parent m) (mesh_enabled m) (mesh_rotation m)
         (mesh_position m) (mesh_scaling m) (mesh_plane m) (mesh_material m)
         (mesh_disposed m).
Definition with_parent (p : option nat) (m : Mesh) : Mesh :=
  mkMesh (mesh_name m) (mesh_id m) p (mesh_enabled m) (mesh_rotation m)
         (mesh_position m) (mesh_scaling m) (mesh_plane m) (mesh_material m)
         (mesh_disposed m).
Definition with_enabled (b : bool) (m : Mesh) : Mesh :=
  mkMesh (mesh_name m) (mesh_id m) (mesh_parent m) b (mesh_rotation m)
         (mesh_position m) (mesh_scaling m) (mesh_plane m) (mesh_material m)
         (mesh_disposed m).
Definition with_rotation (v : Vector3 num) (m : Mesh) : Mesh :=
  mkMesh (mesh_name m) (mesh_id m) (mesh_parent m) (mesh_enabled m) v
         (mesh_position m) (mesh_scaling m) (mesh_plane m) (mesh_material m)
         (mesh_disposed m).
Definition with_position (v : Vector3 num) (m : Mesh) : Mesh :=
  mkMesh (mesh_name m) (mesh_id m) (mesh_parent m) (mesh_enabled m)
         (mesh_rotation m) v (mesh_scaling m) (mesh_plane m) (mesh_material m)
         (mesh_disposed m).
Definition with_scaling (v : Vector3 num) (m : Mesh) : Mesh :=
  mkMesh (mesh_name m) (mesh_id m) (mesh_parent m) (mesh_enabled m)
         (mesh_rotation m) (mesh_position m) v (mesh_plane m) (mesh_material m)
         (mesh_disposed m).
Definition with_material (r : option MaterialRef) (m : Mesh) : Mesh :=
  mkMesh (mesh_name m) (mesh_id m) (mesh_parent m) (mesh_enabled m)
         (mesh_rotation m) (mesh_position m) (mesh_scaling m) (mesh_plane m) r
         (mesh_disposed m).
Definition with_disposed (b : bool) (m : Mesh) : Mesh :=
  mkMesh (mesh_name m) (mesh_id m) (mesh_parent m) (mesh_enabled m)
         (mesh_rotation m) (mesh_position m) (mesh_scaling m) (mesh_plane m)
         (mesh_material m) b.

Definition with_x (a : num) (v : Vector3 num) : Vector3 num :=
  mkVector3 a (vy v) (vz v).
Definition with_y (a : num) (v : Vector3 num) : Vector3 num :=
  mkVector3 (vx v) a (vz v).

Definition Vector3_Zero : Vector3 num :=
  mkVector3 (num_of_int 0) (num_of_int 0) (num_of_int 0).
Definition Vector3_One : Vector3 num :=
  mkVector3 (num_of_int 1) (num_of_int 1) (num_of_int 1).
(** [v.setAll(a)] *)
Definition setAll (a : num) : Vector3 num := mkVector3 a a a.
Definition Color3_Black : Color3 :=
  mkColor3 (num_of_int 0) (num_of_int 0) (num_of_int 0).
Definition Color3_White : Color3 :=
  mkColor3 (num_of_int 1) (num_of_int 1) (num_of_int 1).

(** ** The promise monad over the store *)

Definition M (A : Type) : Type := Store -> Promise A * Store.

Definition ret {A} (a : A) : M A := fun st => (Fulfilled a, st).
Definition throw {A} (e : Error) : M A := fun st => (Rejected e, st).
Definition bind {A B} (c : M A) (k : A -> M B) : M B :=
  fun st =>
    match c st with
    | (Fulfilled a, st') => k a st'
    | (Rejected e, st') => (Rejected e, st')
    end.
Definition modify (f : Store -> Store) : M unit := fun st => (Fulfilled tt, f st).

Notation "'let*' x ':=' c 'in' k" := (bind c (fun x => k))
  (at level 10, x name, c at level 100, k at level 200).
Notation "c ';;' k" := (bind c (fun _ => k))
  (at level 100, k at level 200, right associativity).

(** [new Mesh(name, scene)]: a node with no parent, enabled, at the origin. *)
Definition newMeshValue (name : string) (plane : option (num * num)) : Mesh :=
  mkMesh name name None true Vector3_Zero Vector3_Zero Vector3_One plane None false.

Definition new_Mesh (name : string) : M nat :=
  fun st => (Fulfilled (length (meshes st)),
             set_meshes (fun l => l ++ [newMeshValue name None]) st).

(** [CreatePlane(name, { width, height }, scene)] *)
Definition CreatePlane (name : string) (width height : num) : M nat :=
  fun st => (Fulfilled (length (meshes st)),
             set_meshes (fun l => l ++ [newMeshValue name (Some (width, height))]) st).

(** [new StandardMaterial(name, scene)] *)
Definition new_StandardMaterial (name : string) : M nat :=
  fun st => (Fulfilled (length (materials st)),
             set_materials (fun l => l ++ [mkMaterial name Color3_White None false]) st).

Definition new_Texture (t : Texture) : M nat :=
  fun st => (Fulfilled (length (textures st)),
             set_textures (fun l => l ++ [t]) st).

Definition addEventListener (type : string) (l : Listener) : M unit :=
  modify (set_listeners (fun ls => ls ++ [(type, l)])).


(** ** Event names *)

Definition matrixEvent (uuid name : string) : string :=
  "getMatrixGL_RH-" ++ uuid ++ "-" ++ name.
Definition trackingLostEvent (uuid name : string) : string :=
  "nftTrackingLost-" ++ uuid ++ "-" ++ name.
Definition nftDataEvent (uuid name : string) : string :=
  "getNFTData-" ++ uuid ++ "-" ++ name.

(** ** Event payloads ([e.detail]) *)

Inductive Detail : Type :=
| DetailMatrix (matrixGL_RH : gmap nat num)   (* { matrixGL_RH: {0: .., 1: .., ...} } *)
| DetailNFT (width height dpi : num)          (* { width, height, dpi } *)
| DetailNone.                                  (* [e.detail] is [null] *)

(** [Matrix.FromArray(array)]: the entries [array[0]] .. [array[15]] are
    stored into the [Float32Array] of the matrix.  An entry that is missing
    is [undefined], which is stored as NaN. *)
Definition Matrix_FromArray (array : gmap nat num) : Matrix num :=
  (fun i => match array !! i with
            | Some v => fround v
            | None => NaN
            end) <$> seq 0 16.

(** [_objectToMatrix]: copy the object key by key into an array. *)
Definition _objectToMatrix (obj : gmap nat num) : Matrix num :=
  let array := map_fold (fun key v array => <[key := v]> array) ∅ obj in
  Matrix_FromArray array.

(** [node.setEnabled(b)] *)
Definition setEnabled (i : nat) (b : bool) : Store -> Store :=
  updMesh i (with_enabled b).

(** [node.setAbsolutePosition(p)]: a node without a parent takes [p] as its
    position.  For a parented node the engine goes through the inverse of the
    parent's world matrix, which is not modelled ([None]). *)
Definition setAbsolutePosition (i : nat) (p : Vector3 num) (st : Store)
  : option Store :=
  match meshes st !! i with
  | Some m =>
      match mesh_parent m with
      | None => Some (updMesh i (with_position p) st)
      | Some _ => None
      end
  | None => None
  end.

(** The centering offset of the [getNFTData] listeners. *)
Definition nftOffset (dimension dpi : num) : num :=
  div (mul (mul (div dimension dpi) num_2_54) (num_of_int 10)) (num_of_int 2).

Definition set_position_y (i : nat) (a : num) : Store -> Store :=
  updMesh i (fun m => with_position (with_y a (mesh_position m)) m).
Definition set_position_x (i : nat) (a : num) : Store -> Store :=
  updMesh i (fun m => with_position (with_x a (mesh_position m)) m).

(** The body of the pose listener once [e.detail.matrixGL_RH] is read. *)
Definition pose (root : nat) (matrixGL_RH : gmap nat num) (st : Store)
  : option Store :=
  let matrix := _objectToMatrix matrixGL_RH in
  let rotationMatrix := Matrix_getRotationMatrix matrix in
  let rotation := Quaternion_fromRotationMatrix rotationMatrix in
  let st := updMesh root (with_rotation (Quaternion_toEulerAngles rotation)) st in
  let position := Vector3_TransformCoordinates Vector3_Zero matrix in
  setAbsolutePosition root position st.

(** The fields [msg.width], [msg.height] and [msg.dpi] as numbers; a field
    that is missing is [undefined], NaN in the arithmetic. *)
Definition msg_fields (e : Detail) : option (num * num * num) :=
  match e with
  | DetailNFT width height dpi => Some (width, height, dpi)
  | DetailMatrix _ => Some (NaN, NaN, NaN)
  | DetailNone => None
  end.

(** Run one listener on an event.  A listener that throws (it reads a
    property of a [null] detail) stops there; the event target reports the
    error and goes on with the next listener.  [None] is only the case of
    [setAbsolutePosition] that is not modelled. *)
Definition handle (l : Listener) (e : Detail) (st : Store) : option Store :=
  match l with
  | OnMatrix root =>
      let st := setEnabled root true st in
      match e with
      | DetailMatrix matrixGL_RH => pose root matrixGL_RH st
      | DetailNFT _ _ _ => pose root ∅ st  (* [matrixGL_RH] is [undefined] *)
      | DetailNone => Some st              (* TypeError *)
      end
  | OnTrackingLost root visibility =>
      Some (setEnabled root (negb (negb visibility)) st)
  | OnNFTData_model mesh =>
      match msg_fields e with
      | Some (width, height, dpi) =>
          let st := set_position_y mesh (nftOffset height dpi) st in
          Some (set_position_x mesh (nftOffset width dpi) st)
      | None => Some st                    (* TypeError *)
      end
  | OnNFTData_video plane =>
      match msg_fields e with
      | Some (width, height, dpi) =>
          let st := set_position_y plane (nftOffset height dpi) st in
          Some (set_position_x plane (nftOffset width dpi) st)
      | None => Some st                    (* TypeError *)
      end
  | OnNFTData_image plane =>
      match msg_fields e with
      | Some (width, height, dpi) =>
          let st := set_position_y plane (nftOffset height dpi) st in
          Some (set_position_x plane (nftOffset height dpi) st)
      | None => Some st                    (* TypeError *)
      end
  end.

Fixpoint runListeners (ls : list (string * Listener)) (type : string)
    (e : Detail) (st : Store) : option Store :=
  match ls with
  | [] => Some st
  | (t, l) :: ls' =>
      if String.eqb t type
      then st' ← handle l e st; runListeners ls' type e st'
      else runListeners ls' type e st
  end.

(** [target.dispatchEvent(new CustomEvent(type, { detail: e }))] *)
Definition dispatchEvent (type : string) (e : Detail) (st : Store) : option Store :=
  runListeners (listeners st) type e st.

(** ** [_addRoot] *)

Definition _addRoot (this : SceneRendererBJS) (root : nat) (name : string)
    (visibility : bool) : M unit :=
  addEventListener (matrixEvent (uuid this) name) (OnMatrix root);;
  addEventListener (trackingLostEvent (uuid this) name)
                   (OnTrackingLost root visibility).

(** ** [addModel] *)

(** [data], the result of [SceneLoader.ImportMeshAsync]. *)
Record ImportData : Type := mkImportData {
  data_meshes : list nat;
  data_animationGroups : list nat
}.

(** [model], the result of the processing function. *)
Record Model : Type := mkModel {
  model_mesh : nat;
  model_animation : option nat;
  model_animations : option (list nat)
}.

(** An imported node, in a scene that had [base] nodes and [mats] materials
    before: the positions in the asset become indices of the store (a
    position outside the asset is no parent, no material). *)
Definition importedMesh (a : Asset) (base mats : nat) (x : AssetMesh) : Mesh :=
  mkMesh (am_name x) (am_id x)
         (p ← am_parent x;
          if decide (p < length (asset_meshes a)) then Some (base + p) else None)
         true Vector3_Zero Vector3_Zero Vector3_One None
         (k ← am_material x;
          if decide (k < length (asset_materials a))
          then Some (IsMaterial (mats + k)) else None)
         false.
Definition importedAnimationGroup (a : string * bool) : AnimationGroup :=
  mkAnimationGroup (fst a) (snd a).
Definition importedMaterial (name : string) : StandardMaterial :=
  mkMaterial name Color3_White None false.

Definition isEnvironmentBRDF (t : Texture) : bool :=
  match t with EnvironmentBRDFTexture => true | _ => false end.

(** The textures an import adds: those of the asset and, with the first
    material imported into a scene, the engine's environment BRDF texture
    (the materials of an asset are physically based). *)
Definition importedTextures (a : Asset) (st : Store) : list Texture :=
  (ImportedTexture <$> asset_textures a)
  ++ (if bool_decide (asset_materials a = [])
         || existsb isEnvironmentBRDF (textures st)
      then [] else [EnvironmentBRDFTexture]).

(** The objects of an imported asset join the scene; [data] lists them. *)
Definition importData (a : Asset) (st : Store) : ImportData :=
  mkImportData (seq (length (meshes st)) (length (asset_meshes a)))
               (seq (length (animationGroups st))
                    (length (asset_animationGroups a))).

Definition importAsset (a : Asset) (st : Store) : Store :=
  mkStore (meshes st
             ++ (importedMesh a (length (meshes st)) (length (materials st))
                   <$> asset_meshes a))
          (materials st ++ (importedMaterial <$> asset_materials a))
          (textures st ++ importedTextures a st)
          (animationGroups st
             ++ (importedAnimationGroup <$> asset_animationGroups a))
          (listeners st) (requests st).

(** [SceneLoader.ImportMeshAsync('', url, '', scene)]: the importer is asked
    once for [url]. *)
Definition SceneLoader_ImportMeshAsync (w : World) (url : string) : M ImportData :=
  fun st =>
    let st := set_requests (fun l => l ++ [url]) st in
    match fetch w url with
    | inl e => (Rejected e, st)
    | inr a => (Fulfilled (importData a st), importAsset a st)
    end.

(** [mesh.id == s] for the mesh at index [r]. *)
Definition meshIdIs (st : Store) (s : string) (r : nat) : bool :=
  match meshes st !! r with
  | Some m => String.eqb (mesh_id m) s
  | None => false
  end.

Definition animationNameIs (st : Store) (s : string) (r : nat) : bool :=
  match animationGroups st !! r with
  | Some g => String.eqb (ag_name g) s
  | None => false
  end.

Definition with_ag_name (s : string) (g : AnimationGroup) : AnimationGroup :=
  mkAnimationGroup s (ag_playing g).
(** [animationGroup.stop()] *)
Definition stop (g : AnimationGroup) : AnimationGroup :=
  mkAnimationGroup (ag_name g) false.

(** [i] is the node [l] or one of its descendants; [fuel] bounds the walk
    up the parent links. *)
Fixpoint isUnder (fuel : nat) (st : Store) (l i : nat) : bool :=
  bool_decide (i = l)
  || match fuel with
     | 0 => false
     | S fuel' =>
         match meshes st !! i with
         | Some m =>
             match mesh_parent m with
             | Some p => isUnder fuel' st l p
             | None => false
             end
         | None => false
         end
     end.

(** [mesh.dispose()]: the node and, recursively, its descendants leave the
    scene, each of them losing its parent. *)
Definition dispose (l : nat) (st : Store) : Store :=
  set_meshes
    (imap (fun i m => if isUnder (length (meshes st)) st l i
                      then with_parent None (with_disposed true m) else m)) st.

Definition updAnimationGroup (i : nat) (f : AnimationGroup -> AnimationGroup)
    (st : Store) : Store :=
  set_animationGroups (alter f i) st.

Definition _processModelData (data : ImportData) (name : JsVal) : M Model :=
  fun st =>
    (* model.mesh = data.meshes.find(mesh => mesh.id == '__root__') *)
    match List.find (meshIdIs st "__root__") (data_meshes data) with
    | None =>
        (* model.mesh is undefined: [model.mesh.name = ...] throws *)
        (Rejected (TypeError "Cannot set properties of undefined (setting 'name')"), st)
    | Some mesh =>
        let st := updMesh mesh (with_name (ToString name ++ " Mesh")) st in
        let st := updMesh mesh (fun m => with_id (mesh_name m) m) st in
        let st :=
          match List.find (meshIdIs st "Default Light") (data_meshes data) with
          | Some light => dispose light st
          | None => st
          end in
        let st :=
          fold_left (fun st animationGroup => updAnimationGroup animationGroup stop st)
                    (data_animationGroups data) st in
        match head (data_animationGroups data) with
        | Some firstAnim =>
            if animationNameIs st "All Animations" firstAnim
               || animationNameIs st "Animation" firstAnim
            then
              let st := updAnimationGroup firstAnim
                          (with_ag_name (ToString name ++ " Animation")) st in
              (Fulfilled (mkModel mesh (Some firstAnim) None), st)
            else (Fulfilled (mkModel mesh None (Some (data_animationGroups data))), st)
        | None => (Fulfilled (mkModel mesh None (Some (data_animationGroups data))), st)
        end
    end.

Record ModelArgs : Type := mkModelArgs {
  url : string;
  model_name : string;
  model_scale : option num;              (* default: 15 *)
  model_visibility : option bool;        (* default: false *)
  process : option (ImportData -> M Model)
}.

Definition with_useLogarithmicDepth (b : bool) (m : StandardMaterial)
  : StandardMaterial :=
  mkMaterial (mat_name m) (diffuseColor m) (emissiveTexture m) b.

(** [material.useLogarithmicDepth = value]: the engine's setter keeps the
    value only on a device that can write the fragment depth. *)
Definition set_useLogarithmicDepth (w : World) (value : bool)
    (m : StandardMaterial) : StandardMaterial :=
  with_useLogarithmicDepth (value && fragmentDepthSupported w) m.

Definition addModel (this : SceneRendererBJS) (w : World) (args : ModelArgs)
  : M Model :=
  let name := model_name args in
  let scale := default (num_of_int 15) (model_scale args) in
  let visibility := default false (model_visibility args) in
  let* data := SceneLoader_ImportMeshAsync w (url args) in
  (* process = process || this._processModelData; process(data) *)
  let process := default (fun data => _processModelData data VUndefined)
                         (process args) in
  let* model := process data in
  let* root := new_Mesh (name ++ " Root") in
  modify (set_materials (fmap (set_useLogarithmicDepth w true)));;
  modify (updMesh (model_mesh model) (with_parent (Some root)));;
  modify (updMesh (model_mesh model) (with_scaling (setAll scale)));;
  addEventListener (nftDataEvent (uuid this) name)
                   (OnNFTData_model (model_mesh model));;
  _addRoot this root name visibility;;
  ret model.

(** ** [addVideo] and [addImage] *)

Record MediaArgs : Type := mkMediaArgs {
  src : JsVal;
  media_name : string;
  media_scale : option num;              (* default: 1 *)
  media_visibility : option bool         (* default: false *)
}.

Definition with_diffuseColor (c : Color3) (m : StandardMaterial) : StandardMaterial :=
  mkMaterial (mat_name m) c (emissiveTexture m) (useLogarithmicDepth m).
Definition with_emissiveTexture (t : option nat) (m : StandardMaterial)
  : StandardMaterial :=
  mkMaterial (mat_name m) (diffuseColor m) t (useLogarithmicDepth m).
Definition updMaterial (i : nat) (f : StandardMaterial -> StandardMaterial)
    (st : Store) : Store :=
  set_materials (alter f i) st.

(** [texture.video]: the element given as [src], or the one the texture
    creates for a URL. *)
Inductive VideoElement : Type :=
| GivenVideo (e : nat)
| CreatedVideo (texture : nat).

Definition texture_video (texture : nat) (src : JsVal) : VideoElement :=
  match src with
  | VElement e => GivenVideo e
  | _ => CreatedVideo texture
  end.

Definition addVideo (this : SceneRendererBJS) (w : World) (args : MediaArgs)
  : M VideoElement :=
  let name := media_name args in
  let scale := default (num_of_int 1) (media_scale args) in
  let visibility := default false (media_visibility args) in
  let* root := new_Mesh (name ++ " Root") in
  let* plane := CreatePlane (name ++ " Plane")
                  (mul (num_of_int 16) (num_of_int 60))
                  (mul (num_of_int 9) (num_of_int 60)) in
  let* material := new_StandardMaterial ("Video Material - " ++ name) in
  let* texture := new_Texture (VideoTexture ("Video - " ++ name) (src args)
                                            false true true) in
  modify (updMesh plane (with_material (Some (IsMaterial material))));;
  modify (updMaterial material (with_diffuseColor Color3_Black));;
  modify (updMaterial material (with_emissiveTexture (Some texture)));;
  modify (updMesh plane (with_parent (Some root)));;
  modify (updMesh plane (with_scaling (setAll scale)));;
  modify (updMesh plane (fun m => with_rotation (with_x Math_PI (mesh_rotation m)) m));;
  addEventListener (nftDataEvent (uuid this) name) (OnNFTData_video plane);;
  _addRoot this root name visibility;;
  ret (texture_video texture (src args)).

Definition addImage (this : SceneRendererBJS) (w : World) (args : MediaArgs)
  : M nat :=
  let name := media_name args in
  let scale := default (num_of_int 1) (media_scale args) in
  let visibility := default false (media_visibility args) in
  let* root := new_Mesh (name ++ " Root") in
  let* plane := CreatePlane (name ++ " Plane")
                  (mul (num_of_int 16) (num_of_int 60))
                  (mul (num_of_int 9) (num_of_int 60)) in
  let* material := new_StandardMaterial (name ++ " Image Material") in
  (* let texture; *)
  let texture0 := VUndefined in
  let* texture :=
    if String.eqb (typeof texture0) "string"
    then new_Texture (ImageTexture (Some (src args)) false true None)
    else new_Texture (ImageTexture None false true (Some (src args))) in
  (* plane.material = texture; *)
  modify (updMesh plane (with_material (Some (IsTexture texture))));;
  modify (updMaterial material (with_diffuseColor Color3_Black));;
  modify (updMaterial material (with_emissiveTexture (Some texture)));;
  modify (updMesh plane (with_parent (Some root)));;
  modify (updMesh plane (with_scaling (setAll scale)));;
  modify (updMesh plane (fun m => with_rotation (with_x Math_PI (mesh_rotation m)) m));;
  addEventListener (nftDataEvent (uuid this) name) (OnNFTData_image plane);;
  _addRoot this root name visibility;;
  ret plane.

(** ** Attachments *)

Inductive Request : Type :=
| ReqModel (args : ModelArgs)
| ReqVideo (args : MediaArgs)
| ReqImage (args : MediaArgs).

Definition request_name (r : Request) : string :=
  match r with
  | ReqModel args => model_name args
  | ReqVideo args => media_name args
  | ReqImage args => media_name args
  end.

Definition request_visibility (r : Request) : bool :=
  match r with
  | ReqModel args => default false (model_visibility args)
  | ReqVideo args => default false (media_visibility args)
  | ReqImage args => default false (media_visibility args)
  end.

(** The request leaves the processing function out. *)
Definition default_processing (r : Request) : bool :=
  match r with
  | ReqModel args => match process args with None => true | Some _ => false end
  | _ => true
  end.

(** One call of [addModel], [addVideo] or [addImage]; [true] when the promise
    is fulfilled. *)
Definition attach (this : SceneRendererBJS) (w : World) (r : Request) (st : Store)
  : bool * Store :=
  match r with
  | ReqModel args =>
      match addModel this w args st with
      | (Fulfilled _, st') => (true, st')
      | (Rejected _, st') => (false, st')
      end
  | ReqVideo args =>
      match addVideo this w args st with
      | (Fulfilled _, st') => (true, st')
      | (Rejected _, st') => (false, st')
      end
  | ReqImage args =>
      match addImage this w args st with
      | (Fulfilled _, st') => (true, st')
      | (Rejected _, st') => (false, st')
      end
  end.

(** A sequence of calls; the number of fulfilled ones and the final store. *)
Fixpoint attachAll (this : SceneRendererBJS) (w : World) (rs : list Request)
    (st : Store) : nat * Store :=
  match rs with
  | [] => (0, st)
  | r :: rs' =>
      let '(ok, st1) := attach this w r st in
      let '(k, st2) := attachAll this w rs' st1 in
      ((if ok then S k else k), st2)
  end.

(** ** Notions used by the statements *)

Inductive Kind : Type := KMatrix | KTrackingLost | KNFTData.

Definition kind (l : Listener) : Kind :=
  match l with
  | OnMatrix _ => KMatrix
  | OnTrackingLost _ _ => KTrackingLost
  | _ => KNFTData
  end.

Definition kindPrefix (k : Kind) : string :=
  match k with
  | KMatrix => "getMatrixGL_RH-"
  | KTrackingLost => "nftTrackingLost-"
  | KNFTData => "getNFTData-"
  end.

(** The node a listener writes to. *)
Definition target (l : Listener) : nat :=
  match l with
  | OnMatrix root => root
  | OnTrackingLost root _ => root
  | OnNFTData_model mesh => mesh
  | OnNFTData_video plane => plane
  | OnNFTData_image plane => plane
  end.

Definition parents (st : Store) : list (option nat) := mesh_parent <$> meshes st.

(** The anchor nodes: the roots that listen to the pose event [type]. *)
Definition anchorsOn (type : string) (ls : list (string * Listener)) : list nat :=
  omap (fun tl : string * Listener =>
          match tl with
          | (t, OnMatrix root) => if String.eqb t type then Some root else None
          | _ => None
          end) ls.

Definition anchorsOf (this : SceneRendererBJS) (name : string) (st : Store)
  : list nat :=
  anchorsOn (matrixEvent (uuid this) name) (listeners st).

(** The indices (counted from [base]) of the entries of [ps] that are [r]. *)
Fixpoint positions (r : nat) (base : nat) (ps : list (option nat)) : list nat :=
  match ps with
  | [] => []
  | p :: ps' =>
      (if decide (p = Some r) then [base] else []) ++ positions r (S base) ps'
  end.

(** The nodes whose [parent] is the node [r]. *)
Definition childrenOf (st : Store) (r : nat) : list nat :=
  positions r 0 (parents st).

(** The listeners registered for [type], in registration order. *)
Definition handlers (type : string) (ls : list (string * Listener)) : list Listener :=
  omap (fun tl : string * Listener =>
          if String.eqb tl.1 type then Some tl.2 else None) ls.

Fixpoint runAll (hs : list Listener) (e : Detail) (st : Store) : option Store :=
  match hs with
  | [] => Some st
  | l :: hs' => st' ← handle l e st; runAll hs' e st'
  end.

(** The payload has the sixteen entries [0..15]. *)
Definition flat16 (obj : gmap nat num) : Prop :=
  forall i, i < 16 -> is_Some (obj !! i).

(** What a listener does to its node. *)
Definition posed (matrix : Matrix num) (m : Mesh) : Mesh :=
  with_position (Vector3_TransformCoordinates Vector3_Zero matrix)
    (with_rotation
       (Quaternion_toEulerAngles
          (Quaternion_fromRotationMatrix (Matrix_getRotationMatrix matrix)))
       (with_enabled true m)).

Definition offset_by (ox oy : num) (m : Mesh) : Mesh :=
  with_position (mkVector3 ox oy (vz (mesh_position m))) m.

Definition effect (l : Listener) (e : Detail) : Mesh -> Mesh :=
  match l with
  | OnMatrix _ =>
      match e with
      | DetailMatrix obj => posed (_objectToMatrix obj)
      | DetailNFT _ _ _ => posed (_objectToMatrix ∅)
      | DetailNone => with_enabled true
      end
  | OnTrackingLost _ visibility => with_enabled visibility
  | OnNFTData_model _ | OnNFTData_video _ =>
      match msg_fields e with
      | Some (width, height, dpi) =>
          offset_by (nftOffset width dpi) (nftOffset height dpi)
      | None => fun m => m
      end
  | OnNFTData_image _ =>
      match msg_fields e with
      | Some (width, height, dpi) =>
          offset_by (nftOffset height dpi) (nftOffset height dpi)
      | None => fun m => m
      end
  end.

(** What the listeners [hs] do to the node [i]: the first of them that
    writes to [i] decides (they write to different nodes). *)
Definition effectAt (hs : list Listener) (e : Detail) (i : nat) : Mesh -> Mesh :=
  match List.find (fun l => bool_decide (target l = i)) hs with
  | Some l => effect l e
  | None => fun m => m
  end.

(** The invariant of the stores the renderer builds. *)
Record wf (st : Store) : Prop := mkWf {
  (* a listener is registered under an event name of its own kind *)
  wf_kind : Forall (fun tl : string * Listener =>
                      String.prefix (kindPrefix (kind tl.2)) tl.1 = true)
                   (listeners st);
  (* no two listeners of one kind write to the same node *)
  wf_key : NoDup ((fun tl : string * Listener => (kind tl.2, target tl.2))
                    <$> listeners st);
  (* listeners write to nodes of the scene *)
  wf_target : Forall (fun tl : string * Listener => target tl.2 < length (meshes st))
                     (listeners st);
  (* parents are nodes of the scene *)
  wf_parent : Forall (fun p : option nat =>
                        forall q, p = Some q -> q < length (meshes st))
                     (parents st);
  (* an anchor has no parent and exactly one child *)
  wf_anchor : forall t r, In (t, OnMatrix r) (listeners st) ->
                parents st !! r = Some None /\ length (childrenOf st r) = 1
}.

(** The [getNFTData] listener each attacher registers for its content. *)
Definition onNFTData (r : Request) (c : nat) : Listener :=
  match r with
  | ReqModel _ => OnNFTData_model c
  | ReqVideo _ => OnNFTData_video c
  | ReqImage _ => OnNFTData_image c
  end.

(** [node.isEnabled()]: the node and its ancestors are enabled.  [fuel]
    bounds the walk up the parent links. *)
Fixpoint isEnabled (fuel : nat) (st : Store) (i : nat) : bool :=
  match fuel with
  | 0 => true
  | S fuel' =>
      match meshes st !! i with
      | Some m =>
          mesh_enabled m
          && match mesh_parent m with
             | Some p => isEnabled fuel' st p
             | None => true
             end
      | None => true
      end
  end.

(** A node with its pose blanked: what is left is what no event changes. *)
Definition unposed (m : Mesh) : Mesh :=
  with_enabled true (with_rotation Vector3_Zero (with_position Vector3_Zero m)).

(** The stores a renderer can be in: the constructor's, then calls of the
    attachers (default processing) and events, in any order. *)
Inductive built (this : SceneRendererBJS) (w : World) : Store -> Prop :=
| built_constructor : built this w initialStore
| built_attach r st ok st' :
    built this w st -> default_processing r = true ->
    attach this w r st = (ok, st') -> built this w st'
| built_event type e st st' :
    built this w st -> dispatchEvent type e st = Some st' -> built this w st'.

(** New nodes hang on new nodes only. *)
Definition fresh_parents (st : Store) (N : list (option nat)) : Prop :=
  Forall (fun p : option nat =>
            forall q, p = Some q ->
                      length (meshes st) <= q < length (meshes st) + length N) N.

(** What a rejected call leaves behind: at most some imported nodes; no
    listener. *)
Definition Extended (st st' : Store) : Prop :=
  exists N, parents st' = parents st ++ N
            /\ fresh_parents st N
            /\ listeners st' = listeners st.

(** What a fulfilled call for the marker [name] adds: new nodes, among them
    the anchor [a], without parent, whose only child is the content [c]; and
    the three listeners of the call. *)
Definition Attached (this : SceneRendererBJS) (name : string) (visibility : bool)
    (st st' : Store) (c a : nat) (onData : Listener) : Prop :=
  exists N,
    parents st' = parents st ++ N
    /\ fresh_parents st N
    /\ length (meshes st) <= a < length (meshes st) + length N
    /\ N !! (a - length (meshes st)) = Some None
    /\ positions a (length (meshes st)) N = [c]
    /\ kind onData = KNFTData
    /\ target onData = c
    /\ (exists m, meshes st' !! a = Some m /\ mesh_name m = (name ++ " Root")%string)
    /\ listeners st' =
         listeners st ++
           [ (nftDataEvent (uuid this) name, onData);
             (matrixEvent (uuid this) name, OnMatrix a);
             (trackingLostEvent (uuid this) name, OnTrackingLost a visibility) ].

End Renderer.

(** * Sample inputs *)

Module Sample.

Definition this : SceneRendererBJS := mkRenderer "session".

(** A page on which nothing can be loaded. *)
Definition offline : World :=
  mkWorld (fun _ => inl (LoadError "404")) (fun _ => false) false.

(** A GLB asset as Blender exports it: the nodes hang on [__root__]. *)
Definition glb : Asset :=
  mkAsset [ mkAssetMesh "__root__" "__root__" None None;
            mkAssetMesh "Cube" "Cube" (Some 0) (Some 0);
            mkAssetMesh "Default Light" "Default Light" (Some 0) None;
            mkAssetMesh "Bulb" "Bulb" (Some 2) (Some 0) ]
          [ ("Animation", true) ]
          [ "Material" ]
          [ "Material (Base Color)" ].

(** The same, without the root node. *)
Definition rootless : Asset :=
  mkAsset [ mkAssetMesh "Cube" "Cube" None (Some 0) ] [] [ "Material" ] [].

Definition online : World :=
  mkWorld (fun url => if String.eqb url "model.glb" then inr glb
                      else if String.eqb url "rootless.glb" then inr rootless
                      else inl (LoadError "404"))
          (fun _ => true) true.

(** The same page on a device that cannot write the fragment depth. *)
Definition legacy : World :=
  mkWorld (fetch online) (textureLoads online) false.

Definition video {num : Type} : @MediaArgs num :=
  mkMediaArgs (VElement 0) "marker-name" None None.
Definition missingVideo {num : Type} : @MediaArgs num :=
  mkMediaArgs (VString "missing.mp4") "marker-name" None None.
Definition image {num : Type} : @MediaArgs num :=
  mkMediaArgs (VString "image.png") "marker-name" None None.
Definition model {num : Type} : @ModelArgs num :=
  mkModelArgs "model.glb" "marker-name" None None None.
Definition missingModel {num : Type} : @ModelArgs num :=
  mkModelArgs "missing.glb" "marker-name" None None None.

(** Stand-ins for [Math.atan2] and [Math.asin]: the results ECMAScript
    fixes ([atan2(±0, x) = ±0] for [x > 0], [asin(±0) = ±0]) and, elsewhere,
    their small-angle approximations. *)
Definition mathLib : MathLib :=
  mkMathLib (fun y x => if PrimFloat.eqb y 0 && PrimFloat.ltb 0 x then y
                        else PrimFloat.div y x)
            (fun x => x).

Definition engine : Engine float := Babylon.engine mathLib.

(** A payload with the sixteen entries of a matrix, as the tracker sends
    it: an object with the keys [0] to [15]. *)
Definition payload (M : Matrix float) : gmap nat float :=
  list_to_map (imap (fun i x => (i, x)) M).

Definition identityPayload : gmap nat float := payload Babylon.Matrix_Identity.


(** A translation by (1, 2, 3) in homogeneous coordinates with [w = 2]. *)
Definition halved : Matrix float :=
  [1; 0; 0; 0;  0; 1; 0; 0;  0; 0; 1; 0;  2; 4; 6; 2]%float.

(** The scene after [addVideo] on a fresh renderer. *)
Definition videoScene : @Store float :=
  (addVideo this offline video initialStore).2.

(** The same scene once the marker has been seen at (1, 2, 3) and lost. *)
Definition lostScene : @Store float :=
  let seen :=
    default videoScene
      (dispatchEvent (ENG:=engine) (matrixEvent (uuid this) "marker-name")
                     (DetailMatrix (payload halved)) videoScene) in
  default seen
    (dispatchEvent (ENG:=engine) (trackingLostEvent (uuid this) "marker-name")
                   DetailNone seen).

End Sample.

(** * Properties *)

Section Properties.

Context {num : Type} {NUM : JsNumber num} {ENG : Engine num}.

Implicit Types st : @Store num.


(** ** Lists and strings *)

Lemma alter_snoc {A} (f : A -> A) (l : list A) (a : A) :
  alter f (length l) (l ++ [a]) = l ++ [f a].
Proof.
  replace (length l) with (length l + 0) by lia.
  by rewrite alter_app_r.
Qed.

Lemma alter_twice {A} (f g : A -> A) (i : nat) (l : list A) :
  alter f i (alter g i l) = alter (fun a => f (g a)) i l.
Proof.
  rewrite list_alter_alter. by destruct (decide (i = i)).
Qed.

Lemma fmap_alter_same {A B} (g : A -> B) (f : A -> A) (i : nat) (l : list A) :
  (forall a, g (f a) = g a) -> g <$> alter f i l = g <$> l.
Proof.
  intros Hf. rewrite (list_fmap_alter g f (fun b => b)).
  - by apply list_alter_id.
  - apply Forall_forall. intros a _. apply Hf.
Qed.

Lemma positions_app r base ps1 ps2 :
  positions r base (ps1 ++ ps2)
  = positions r base ps1 ++ positions r (base + length ps1) ps2.
Proof.
  revert base. induction ps1 as [|p ps1 IH]; intros base; simpl.
  - by rewrite Nat.add_0_r.
  - rewrite IH, <- app_assoc. do 3 f_equal. lia.
Qed.

Lemma positions_replicate_None r base n :
  positions r base (replicate n None) = [].
Proof.
  revert base. induction n as [|n IH]; intros base; simpl; auto.
Qed.

Lemma positions_absent r base ps :
  Forall (fun p => p <> Some r) ps -> positions r base ps = [].
Proof.
  intros H. revert base. induction H as [|p ps Hp _ IH]; intros base; simpl; auto.
  destruct (decide (p = Some r)); [done | apply IH].
Qed.

Lemma prefix_matrix_kind k uuid name :
  String.prefix (kindPrefix k) (matrixEvent uuid name) = true -> k = KMatrix.
Proof. destruct k; simpl; congruence. Qed.

Lemma prefix_lost_kind k uuid name :
  String.prefix (kindPrefix k) (trackingLostEvent uuid name) = true
  -> k = KTrackingLost.
Proof. destruct k; simpl; congruence. Qed.

Lemma prefix_nft_kind k uuid name :
  String.prefix (kindPrefix k) (nftDataEvent uuid name) = true -> k = KNFTData.
Proof. destruct k; simpl; congruence. Qed.

Lemma prefix_append s t : String.prefix s (s ++ t) = true.
Proof. induction s as [|c s IH]; simpl; [by destruct t|]. by destruct (ascii_dec c c). Qed.

(** ** The listeners *)

Lemma prefix_event_names uuid name :
  String.prefix (kindPrefix KNFTData) (nftDataEvent uuid name) = true
  /\ String.prefix (kindPrefix KMatrix) (matrixEvent uuid name) = true
  /\ String.prefix (kindPrefix KTrackingLost) (trackingLostEvent uuid name) = true.
Proof.
  repeat split.
  - apply (prefix_append (kindPrefix KNFTData)).
  - apply (prefix_append (kindPrefix KMatrix)).
  - apply (prefix_append (kindPrefix KTrackingLost)).
Qed.

Lemma objectToMatrix_copy (obj : gmap nat num) :
  map_fold (fun key v array => <[key := v]> array) ∅ obj = obj.
Proof.
  apply (map_fold_weak_ind (fun r (m : gmap nat num) => r = m)); [done|].
  intros i x m r _ ->. done.
Qed.

Lemma objectToMatrix_entries (obj : gmap nat num) :
  length (_objectToMatrix obj) = 16
  /\ forall i, i < 16 ->
       _objectToMatrix obj !! i
       = Some (match obj !! i with Some v => fround v | None => NaN end).
Proof.
  unfold _objectToMatrix, Matrix_FromArray. rewrite objectToMatrix_copy. split.
  - by rewrite length_fmap, length_seq.
  - intros i Hi. by rewrite list_lookup_fmap, lookup_seq_lt.
Qed.

Lemma effect_parent l e m : mesh_parent (effect l e m) = mesh_parent m.
Proof. destruct l, e; reflexivity. Qed.

Lemma parents_updMesh i f st :
  (forall m, mesh_parent (f m) = mesh_parent m) ->
  parents (updMesh i f st) = parents st.
Proof. intros Hf. unfold parents. simpl. by apply fmap_alter_same. Qed.

Lemma parents_lookup st i p :
  parents st !! i = Some p <->
  exists m, meshes st !! i = Some m /\ mesh_parent m = p.
Proof.
  unfold parents. rewrite list_lookup_fmap.
  destruct (meshes st !! i) as [m|]; simpl; split.
  - intros [= <-]. eauto.
  - intros (m' & [= <-] & <-). done.
  - discriminate.
  - intros (m' & ? & _). discriminate.
Qed.

(** A listener whose payload has the right shape rewrites its node by
    [effect]; the pose listener needs its root to be parentless. *)
Lemma updMesh_id i st : updMesh i (fun m => m) st = st.
Proof.
  destruct st. unfold updMesh, set_meshes. simpl. f_equal.
  by apply list_alter_id.
Qed.

Lemma handle_effect l e st :
  (kind l = KMatrix -> parents st !! target l = Some None) ->
  handle l e st = Some (updMesh (target l) (effect l e) st).
Proof.
  intros Hroot. destruct l as [root|root v|c|c|c]; simpl in *.
  - assert (Hpose : forall obj,
              pose root obj (setEnabled root true st)
              = Some (updMesh root (posed (_objectToMatrix obj)) st)).
    { intros obj.
      destruct (proj1 (parents_lookup st root None) (Hroot eq_refl)) as (m & Hm & Hp).
      unfold pose, setAbsolutePosition, setEnabled, updMesh. simpl.
      rewrite !list_lookup_alter_eq, Hm. simpl. rewrite Hp.
      unfold set_meshes. simpl. rewrite !alter_twice. done. }
    destruct e as [obj| |]; [apply Hpose | apply Hpose | done].
  - by rewrite negb_involutive.
  - destruct e; simpl; rewrite ?updMesh_id; try done;
      unfold set_position_x, set_position_y, updMesh, set_meshes; simpl;
      by rewrite alter_twice.
  - destruct e; simpl; rewrite ?updMesh_id; try done;
      unfold set_position_x, set_position_y, updMesh, set_meshes; simpl;
      by rewrite alter_twice.
  - destruct e; simpl; rewrite ?updMesh_id; try done;
      unfold set_position_x, set_position_y, updMesh, set_meshes; simpl;
      by rewrite alter_twice.
Qed.

(** ** Dispatching an event *)

Lemma runListeners_handlers ls t e st :
  runListeners ls t e st = runAll (handlers t ls) e st.
Proof.
  revert st. induction ls as [|[t' l] ls IH]; intros st; simpl; [done|].
  destruct (String.eqb t' t); simpl; [|apply IH].
  destruct (handle l e st); simpl; [apply IH | done].
Qed.

Lemma elem_of_handlers t ls l : l ∈ handlers t ls <-> In (t, l) ls.
Proof.
  unfold handlers. rewrite list_elem_of_omap, <- list_elem_of_In. split.
  - intros ([t' l'] & Hin & Heq). simpl in Heq.
    destruct (String.eqb_spec t' t); [|discriminate].
    injection Heq as ->. by subst.
  - intros Hin. exists (t, l). split; [done|]. simpl. by rewrite String.eqb_refl.
Qed.

Lemma effectAt_cons l hs e i :
  effectAt (l :: hs) e i
  = if decide (target l = i) then effect l e else effectAt hs e i.
Proof.
  unfold effectAt. simpl. unfold bool_decide.
  by destruct (decide_rel eq (target l) i).
Qed.

Lemma effectAt_absent hs e i : i ∉ target <$> hs -> effectAt hs e i = fun m => m.
Proof.
  induction hs as [|l hs IH]; intros Hi; [done|].
  rewrite effectAt_cons. rewrite fmap_cons, not_elem_of_cons in Hi.
  destruct Hi as [Hne Hi]. destruct (decide (target l = i)); [congruence | auto].
Qed.

Lemma effectAt_present hs e l :
  NoDup (target <$> hs) -> l ∈ hs ->
  effectAt hs e (target l) = effect l e.
Proof.
  induction hs as [|l' hs IH]; intros Hnd Hin; [by apply elem_of_nil in Hin|].
  rewrite fmap_cons in Hnd. apply NoDup_cons in Hnd as [Hfresh Hnd].
  rewrite effectAt_cons. apply elem_of_cons in Hin as [->|Hin].
  - by destruct (decide (target l' = target l')).
  - destruct (decide (target l' = target l)) as [Heq|]; [|auto].
    exfalso. apply Hfresh. rewrite Heq. by apply list_elem_of_fmap_2.
Qed.

(** Runs of listeners that write to different nodes: every node is rewritten
    by the listener registered for it, the rest of the store is kept. *)
Lemma runAll_spec hs e st :
  NoDup (target <$> hs) ->
  Forall (fun l => kind l = KMatrix -> parents st !! target l = Some None) hs ->
  exists st', runAll hs e st = Some st'
    /\ listeners st' = listeners st
    /\ parents st' = parents st
    /\ forall i, meshes st' !! i = effectAt hs e i <$> meshes st !! i.
Proof.
  revert st. induction hs as [|l hs IH]; intros st Hnd Hroot; simpl.
  - exists st. repeat split; try done. intros i.
    unfold effectAt. simpl. by destruct (meshes st !! i).
  - rewrite fmap_cons in Hnd. apply NoDup_cons in Hnd as [Hfresh Hnd].
    apply Forall_cons in Hroot as [Hl Hroot].
    rewrite (handle_effect l e st Hl). simpl.
    assert (Hpar : parents (updMesh (target l) (effect l e) st) = parents st).
    { apply parents_updMesh. intros m. apply effect_parent. }
    destruct (IH (updMesh (target l) (effect l e) st)) as (st' & Hrun & Hls & Hps & Hms).
    { done. } { by rewrite Hpar. }
    exists st'. split; [done|]. split; [done|]. split; [congruence|].
    intros i. rewrite Hms, effectAt_cons. simpl. rewrite list_lookup_alter.
    destruct (decide (target l = i)) as [<-|Hne].
    + rewrite effectAt_absent by done.
      by destruct (meshes st !! target l).
    + done.
Qed.

Lemma length_parents st : length (parents st) = length (meshes st).
Proof. unfold parents. by rewrite length_fmap. Qed.

(** The invariant only reads the listeners and the parent links. *)
Lemma wf_frame st st' :
  listeners st' = listeners st -> parents st' = parents st -> wf st -> wf st'.
Proof.
  intros Hls Hps [H1 H2 H3 H4 H5].
  assert (Hlen : length (meshes st') = length (meshes st)).
  { by rewrite <- !length_parents, Hps. }
  split; unfold childrenOf; rewrite ?Hls, ?Hps, ?Hlen; done.
Qed.

Lemma handlers_NoDup k t ls :
  (forall k', String.prefix (kindPrefix k') t = true -> k' = k) ->
  Forall (fun tl : string * Listener =>
            String.prefix (kindPrefix (kind tl.2)) tl.1 = true) ls ->
  NoDup ((fun tl : string * Listener => (kind tl.2, target tl.2)) <$> ls) ->
  NoDup (target <$> handlers t ls).
Proof.
  intros Hk Hkind Hnd.
  assert (Hsame : forall l, In (t, l) ls -> kind l = k).
  { intros l Hin. apply Hk.
    rewrite Forall_forall in Hkind.
    apply (Hkind (t, l)). by apply list_elem_of_In. }
  clear Hkind. induction ls as [|[t' l] ls IH]; simpl; [constructor|].
  rewrite fmap_cons in Hnd. apply NoDup_cons in Hnd as [Hfresh Hnd]. simpl in *.
  specialize (IH Hnd (fun l' H => Hsame l' (or_intror H))).
  unfold handlers in *. simpl.
  destruct (String.eqb_spec t' t) as [->|Hne]; simpl; [|done].
  apply NoDup_cons. split; [|done].
  intros Hin. apply list_elem_of_fmap in Hin as (l' & Heq & Hin').
  apply elem_of_handlers in Hin'. apply Hfresh.
  apply list_elem_of_fmap. exists (t, l'). simpl. split.
  - rewrite Heq. f_equal. rewrite (Hsame l) by auto. symmetry. auto.
  - by apply list_elem_of_In.
Qed.

(** Dispatching an event on a well-formed store, when all the listeners
    registered for it can read the payload. *)
Lemma dispatch_spec k t e st :
  wf st ->
  (forall k', String.prefix (kindPrefix k') t = true -> k' = k) ->
  exists st', dispatchEvent t e st = Some st'
    /\ listeners st' = listeners st
    /\ parents st' = parents st
    /\ wf st'
    /\ (forall i, (forall l, In (t, l) (listeners st) -> target l <> i) ->
                  meshes st' !! i = meshes st !! i)
    /\ (forall l, In (t, l) (listeners st) ->
                  meshes st' !! target l = effect l e <$> meshes st !! target l).
Proof.
  intros Hwf Hk. unfold dispatchEvent. rewrite runListeners_handlers.
  pose proof (handlers_NoDup k t (listeners st) Hk (wf_kind st Hwf) (wf_key st Hwf))
    as Hnd.
  destruct (runAll_spec (handlers t (listeners st)) e st) as (st' & Hrun & Hls & Hps & Hms).
  - done.
  - apply Forall_forall. intros l Hl Hkind. apply elem_of_handlers in Hl.
    destruct l; try discriminate. simpl.
    by destruct (wf_anchor st Hwf _ _ Hl).
  - exists st'. split; [done|]. split; [done|]. split; [done|].
    split; [|split].
    + by apply (wf_frame st).
    + intros i Hi. rewrite Hms, effectAt_absent; [by destruct (meshes st !! i)|].
      intros Hin. apply list_elem_of_fmap in Hin as (l & -> & Hl).
      apply elem_of_handlers in Hl. by apply (Hi l).
    + intros l Hl. rewrite Hms.
      rewrite (effectAt_present _ e l); try done.
      by apply elem_of_handlers.
Qed.

(** ** What the attachers build *)

Lemma alter_snoc2 {A} (f : A -> A) (l : list A) (a b : A) :
  alter f (S (length l)) (l ++ [a; b]) = l ++ [a; f b].
Proof.
  replace (S (length l)) with (length l + 1) by lia.
  by rewrite alter_app_r.
Qed.

Lemma Store_ext (a b : @Store num) :
  meshes a = meshes b -> materials a = materials b -> textures a = textures b ->
  animationGroups a = animationGroups b -> listeners a = listeners b ->
  requests a = requests b -> a = b.
Proof. destruct a, b; simpl; congruence. Qed.

Ltac run_attacher :=
  unfold bind, new_Mesh, CreatePlane, new_StandardMaterial, new_Texture, modify,
    addEventListener, _addRoot, ret, bind, modify, addEventListener;
  cbn; f_equal; try apply Store_ext; cbn;
  rewrite <- ?app_assoc, ?length_app; cbn;
  rewrite ?Nat.add_1_r, ?alter_snoc2, ?alter_snoc; try reflexivity.

Lemma addVideo_spec this w args st :
  let name := media_name args in
  let root := length (meshes st) in
  addVideo this w args st =
  (Fulfilled (texture_video (length (textures st)) (src args)),
   mkStore
     (meshes st ++
        [ newMeshValue (name ++ " Root") None;
          mkMesh (name ++ " Plane") (name ++ " Plane") (Some root) true
                 (mkVector3 Math_PI (num_of_int 0) (num_of_int 0)) Vector3_Zero
                 (setAll (default (num_of_int 1) (media_scale args)))
                 (Some (mul (num_of_int 16) (num_of_int 60),
                        mul (num_of_int 9) (num_of_int 60)))
                 (Some (IsMaterial (length (materials st)))) false ])
     (materials st ++
        [ mkMaterial ("Video Material - " ++ name) Color3_Black
                     (Some (length (textures st))) false ])
     (textures st ++ [ VideoTexture ("Video - " ++ name) (src args) false true true ])
     (animationGroups st)
     (listeners st ++
        [ (nftDataEvent (uuid this) name, OnNFTData_video (S root));
          (matrixEvent (uuid this) name, OnMatrix root);
          (trackingLostEvent (uuid this) name,
           OnTrackingLost root (default false (media_visibility args))) ])
     (requests st)).
Proof.
  intros name root. unfold addVideo. run_attacher.
Qed.


Lemma addImage_spec this w args st :
  let name := media_name args in
  let root := length (meshes st) in
  addImage this w args st =
  (Fulfilled (S root),
   mkStore
     (meshes st ++
        [ newMeshValue (name ++ " Root") None;
          mkMesh (name ++ " Plane") (name ++ " Plane") (Some root) true
                 (mkVector3 Math_PI (num_of_int 0) (num_of_int 0)) Vector3_Zero
                 (setAll (default (num_of_int 1) (media_scale args)))
                 (Some (mul (num_of_int 16) (num_of_int 60),
                        mul (num_of_int 9) (num_of_int 60)))
                 (Some (IsTexture (length (textures st)))) false ])
     (materials st ++
        [ mkMaterial (name ++ " Image Material") Color3_Black
                     (Some (length (textures st))) false ])
     (textures st ++ [ ImageTexture None false true (Some (src args)) ])
     (animationGroups st)
     (listeners st ++
        [ (nftDataEvent (uuid this) name, OnNFTData_image (S root));
          (matrixEvent (uuid this) name, OnMatrix root);
          (trackingLostEvent (uuid this) name,
           OnTrackingLost root (default false (media_visibility args))) ])
     (requests st)).
Proof.
  intros name root. unfold addImage. run_attacher.
Qed.

Lemma lookup_snoc2_0 {A} (l : list A) (a b : A) :
  (l ++ [a; b]) !! length l = Some a.
Proof. rewrite lookup_app_r by lia. by rewrite Nat.sub_diag. Qed.

Lemma lookup_snoc2_1 {A} (l : list A) (a b : A) :
  (l ++ [a; b]) !! S (length l) = Some b.
Proof.
  rewrite lookup_app_r by lia.
  by replace (S (length l) - length l) with 1 by lia.
Qed.

Lemma lookup_snoc {A} (l : list A) (a : A) : (l ++ [a]) !! length l = Some a.
Proof. rewrite lookup_app_r by lia. by rewrite Nat.sub_diag. Qed.

Lemma addVideo_attached this w args st v st' :
  addVideo this w args st = (v, st') ->
  Attached this (media_name args) (default false (media_visibility args)) st st'
           (S (length (meshes st))) (length (meshes st))
           (OnNFTData_video (S (length (meshes st)))).
Proof.
  rewrite addVideo_spec. intros [= _ <-]. exists [None; Some (length (meshes st))].
  unfold parents, fresh_parents. simpl. rewrite fmap_app. simpl.
  split; [done|]. split.
  { apply Forall_cons; split; [by intros q [=]|].
    apply Forall_cons; split; [intros q [= <-]; simpl; lia | constructor]. }
  split; [lia|]. split; [by rewrite Nat.sub_diag|]. split.
  { by rewrite decide_True. }
  do 2 (split; [done|]). split; [|done].
  eexists. split; [apply lookup_snoc2_0 | done].
Qed.

Lemma addImage_attached this w args st v st' :
  addImage this w args st = (v, st') ->
  Attached this (media_name args) (default false (media_visibility args)) st st'
           (S (length (meshes st))) (length (meshes st))
           (OnNFTData_image (S (length (meshes st)))).
Proof.
  rewrite addImage_spec. intros [= _ <-]. exists [None; Some (length (meshes st))].
  unfold parents, fresh_parents. simpl. rewrite fmap_app. simpl.
  split; [done|]. split.
  { apply Forall_cons; split; [by intros q [=]|].
    apply Forall_cons; split; [intros q [= <-]; simpl; lia | constructor]. }
  split; [lia|]. split; [by rewrite Nat.sub_diag|]. split.
  { by rewrite decide_True. }
  do 2 (split; [done|]). split; [|done].
  eexists. split; [apply lookup_snoc2_0 | done].
Qed.

(** ** [_processModelData] and [addModel] *)

Lemma meshIdIs_lookup st s c :
  meshIdIs st s c = true ->
  exists m, meshes st !! c = Some m /\ mesh_id m = s.
Proof.
  unfold meshIdIs. destruct (meshes st !! c) as [m|]; [|discriminate].
  intros H. exists m. split; [done|]. by apply String.eqb_eq.
Qed.

Lemma mesh_suffix_not_light (s : string) :
  String.eqb (s ++ " Mesh") "Default Light" = false.
Proof.
  apply String.eqb_neq. intros H.
  do 13 (destruct s as [|? s]; [discriminate H|];
         apply (f_equal (fun x => match x with String _ t => t | _ => x end)) in H;
         simpl in H).
  destruct s; discriminate H.
Qed.

Lemma find_ext_in {A} (f g : A -> bool) (l : list A) :
  (forall x, In x l -> f x = g x) -> List.find f l = List.find g l.
Proof.
  induction l as [|x l IH]; intros H; simpl; [done|].
  rewrite <- (H x) by (by left). destruct (f x); [done|].
  apply IH. intros y Hy. apply H. by right.
Qed.

Lemma stop_all_run l st :
  let st' := fold_left (fun st ag => updAnimationGroup ag stop st) l st in
  meshes st' = meshes st /\ materials st' = materials st
  /\ textures st' = textures st
  /\ listeners st' = listeners st /\ requests st' = requests st
  /\ forall g, animationGroups st' !! g
               = (if decide (g ∈ l) then stop else fun x => x) <$> animationGroups st !! g.
Proof.
  revert st. induction l as [|a l IH]; intros st; simpl.
  - split_and!; try done. intros g. by destruct (animationGroups st !! g).
  - destruct (IH (updAnimationGroup a stop st)) as (H1 & H2 & H3 & H4 & H5 & H6).
    simpl in *. split_and!; try done. intros g. rewrite H6, list_lookup_alter.
    destruct (decide (a = g)) as [->|Hne].
    + rewrite (decide_True (P := g ∈ g :: l)) by apply list_elem_of_here.
      destruct (decide (g ∈ l)); by destruct (animationGroups st !! g).
    + destruct (decide (g ∈ l)) as [Hin|Hout].
      * by rewrite decide_True by (by apply list_elem_of_further).
      * rewrite decide_False; [done|].
        intros H. apply elem_of_cons in H as [->|H]; done.
Qed.

Lemma dispose_lookup l st i :
  meshes (dispose l st) !! i
  = (fun m => if isUnder (length (meshes st)) st l i
              then with_parent None (with_disposed true m) else m)
    <$> meshes st !! i.
Proof. unfold dispose. simpl. by rewrite list_lookup_imap. Qed.

Lemma isUnder_updMesh fuel c f st l i :
  (forall m, mesh_parent (f m) = mesh_parent m) ->
  isUnder fuel (updMesh c f st) l i = isUnder fuel st l i.
Proof.
  intros Hf. revert i. induction fuel as [|fuel IH]; intros i; simpl; [done|].
  f_equal. unfold updMesh at 1. simpl.
  destruct (decide (i = c)) as [->|Hne].
  - rewrite list_lookup_alter_eq. destruct (meshes st !! c) as [m|]; simpl; [|done].
    rewrite Hf. destruct (mesh_parent m); [apply IH|done].
  - rewrite list_lookup_alter_ne by congruence.
    destruct (meshes st !! i) as [m|]; [|done].
    destruct (mesh_parent m); [apply IH|done].
Qed.

(** The store and the result of a default processing that returns. *)
Lemma processModelData_run data name st model st' :
  _processModelData data name st = (Fulfilled model, st') ->
  let s := (ToString name ++ " Mesh")%string in
  let light := List.find (meshIdIs st "Default Light") (data_meshes data) in
  let renamed := updMesh (model_mesh model) (fun m => with_id s (with_name s m)) st in
  List.find (meshIdIs st "__root__") (data_meshes data) = Some (model_mesh model)
  /\ light <> Some (model_mesh model)
  /\ meshes st' = meshes (match light with
                          | Some l => dispose l renamed
                          | None => renamed
                          end)
  /\ materials st' = materials st /\ textures st' = textures st
  /\ listeners st' = listeners st /\ requests st' = requests st
  /\ (forall g, animationGroups st' !! g
        = (if decide (model_animation model = Some g)
           then with_ag_name (ToString name ++ " Animation") else fun x => x)
          <$> ((if decide (g ∈ data_animationGroups data) then stop else fun x => x)
               <$> animationGroups st !! g))
  /\ (forall g, model_animation model = Some g ->
                head (data_animationGroups data) = Some g)
  /\ match head (data_animationGroups data) with
     | Some firstAnim =>
         if animationNameIs st "All Animations" firstAnim
            || animationNameIs st "Animation" firstAnim
         then model_animation model = Some firstAnim /\ model_animations model = None
         else model_animation model = None
              /\ model_animations model = Some (data_animationGroups data)
     | None => model_animation model = None
               /\ model_animations model = Some (data_animationGroups data)
     end.
Proof.
  intros Hrun s light. unfold _processModelData in Hrun.
  destruct (List.find (meshIdIs st "__root__") _) as [c|] eqn:Hfind; [|discriminate].
  pose proof Hfind as Hroot. apply find_some in Hroot as [_ Hroot].
  apply meshIdIs_lookup in Hroot as (m0 & Hm0 & Hid0).
  cbv zeta in Hrun. fold s in Hrun.
  set (st2 := updMesh c (fun m => with_id (mesh_name m) m)
                (updMesh c (with_name s) st)) in Hrun.
  assert (Est2 : st2 = updMesh c (fun m => with_id s (with_name s m)) st).
  { subst st2. unfold updMesh, set_meshes. simpl. by rewrite alter_twice. }
  assert (Hlight : List.find (meshIdIs st2 "Default Light") (data_meshes data) = light).
  { apply find_ext_in. intros r _. unfold meshIdIs.
    rewrite Est2. simpl. rewrite list_lookup_alter.
    destruct (decide (c = r)) as [<-|]; [|done].
    rewrite Hm0, Hid0.
    change (String.eqb (ToString name ++ " Mesh") "Default Light"
            = String.eqb "__root__" "Default Light").
    by rewrite mesh_suffix_not_light. }
  rewrite Hlight in Hrun.
  assert (Hnot : light <> Some c).
  { intros Hl. apply find_some in Hl as [_ Hl].
    apply meshIdIs_lookup in Hl as (m & Hm & Hid).
    rewrite Hm0 in Hm. injection Hm as <-. rewrite Hid0 in Hid. discriminate. }
  set (st3 := match light with
              | Some l => dispose l st2
              | None => st2
              end) in Hrun.
  assert (H3 : materials st3 = materials st /\ textures st3 = textures st
               /\ animationGroups st3 = animationGroups st
               /\ listeners st3 = listeners st /\ requests st3 = requests st).
  { subst st3 st2. by destruct light. }
  destruct H3 as (Hmat3 & Htex3 & Hag3 & Hl3 & Hr3).
  destruct (stop_all_run (data_animationGroups data) st3)
    as (Hm4 & Hmat4 & Htex4 & Hl4 & Hr4 & Hag4).
  set (st4 := fold_left (fun st ag => updAnimationGroup ag stop st)
                        (data_animationGroups data) st3) in *.
  assert (Hname : forall n g, animationNameIs st4 n g = animationNameIs st n g).
  { intros n g. unfold animationNameIs. rewrite Hag4, Hag3.
    case_decide; by destruct (animationGroups st !! g). }
  assert (Hstore : meshes st4 = meshes st3
                   /\ materials st4 = materials st /\ textures st4 = textures st
                   /\ listeners st4 = listeners st /\ requests st4 = requests st)
    by (split_and!; congruence).
  destruct Hstore as (Hm & Hmat & Htex & Hl & Hr).
  unfold st3 in Hm. rewrite Est2 in Hm.
  destruct (head (data_animationGroups data)) as [firstAnim|] eqn:Hhead.
  - rewrite !Hname in Hrun.
    destruct (animationNameIs st "All Animations" firstAnim
              || animationNameIs st "Animation" firstAnim) eqn:Hconv;
      injection Hrun as <- <-; simpl; split_and!; try done.
    + intros g. rewrite list_lookup_alter.
      destruct (decide (firstAnim = g)) as [->|Hne].
      * rewrite decide_True by done. by rewrite Hag4, Hag3.
      * rewrite decide_False by congruence. rewrite Hag4, Hag3.
        case_decide; by destruct (animationGroups st !! g).
    + intros g. rewrite Hag4, Hag3.
      case_decide; by destruct (animationGroups st !! g).
  - injection Hrun as <- <-; simpl; split_and!; try done.
    intros g. rewrite Hag4, Hag3.
    case_decide; by destruct (animationGroups st !! g).
Qed.

(** The default processing returns when the data has a mesh with id
    [__root__]: that mesh is the result's mesh. *)
Lemma processModelData_found data name st c :
  List.find (meshIdIs st "__root__") (data_meshes data) = Some c ->
  exists model st',
    _processModelData data name st = (Fulfilled model, st')
    /\ model_mesh model = c.
Proof.
  intros Hfind. unfold _processModelData. rewrite Hfind. cbv zeta.
  destruct (head (data_animationGroups data)) as [firstAnim|];
    [destruct (_ || _)|]; eexists _, _; split; reflexivity.
Qed.

(** The root mesh after the default processing: renamed after [name]. *)
Lemma processModelData_names data name st model st' :
  _processModelData data name st = (Fulfilled model, st') ->
  (exists m, meshes st' !! model_mesh model = Some m
             /\ mesh_name m = (ToString name ++ " Mesh")%string
             /\ mesh_id m = (ToString name ++ " Mesh")%string)
  /\ (forall g, model_animation model = Some g ->
        exists ag, animationGroups st' !! g = Some ag
                   /\ ag_name ag = (ToString name ++ " Animation")%string).
Proof.
  intros Hrun.
  destruct (processModelData_run _ _ _ _ _ Hrun)
    as (Hfind & _ & Hms & _ & _ & _ & _ & Hag & Hhead & Hcls).
  apply find_some in Hfind as [_ Hroot].
  apply meshIdIs_lookup in Hroot as (m0 & Hm0 & _). split.
  - rewrite Hms. destruct (List.find _ _) as [l|].
    + rewrite dispose_lookup. simpl. rewrite list_lookup_alter_eq, Hm0. simpl.
      eexists. split; [reflexivity|]. by destruct (isUnder _ _ _ _).
    + simpl. rewrite list_lookup_alter_eq, Hm0. simpl. eauto.
  - intros g Hg. rewrite Hag. rewrite decide_True by done.
    specialize (Hhead g Hg). rewrite Hhead in Hcls.
    destruct (animationNameIs st "All Animations" g
              || animationNameIs st "Animation" g) eqn:Hconv.
    + assert (is_Some (animationGroups st !! g)) as [ag Hag0].
      { unfold animationNameIs in Hconv.
        destruct (animationGroups st !! g); [eauto | discriminate]. }
      rewrite Hag0. simpl. eauto.
    + destruct Hcls as [Hc _]. congruence.
Qed.

Lemma processModelData_missing data name st :
  List.find (meshIdIs st "__root__") (data_meshes data) = None ->
  _processModelData data name st
  = (Rejected (TypeError "Cannot set properties of undefined (setting 'name')"), st).
Proof. intros H. unfold _processModelData. by rewrite H. Qed.


Lemma addModel_fetch_failed this w args st e :
  fetch w (url args) = inl e ->
  addModel this w args st
  = (Rejected e, set_requests (fun l => l ++ [url args]) st).
Proof.
  intros Hf. unfold addModel, bind, SceneLoader_ImportMeshAsync.
  by rewrite Hf.
Qed.

Lemma processModelData_rejected data name st e st2 :
  _processModelData data name st = (Rejected e, st2) -> st2 = st.
Proof.
  intros Hrun.
  destruct (List.find (meshIdIs st "__root__") (data_meshes data)) as [c|] eqn:Hfind.
  - destruct (processModelData_found data name st c Hfind) as (? & ? & H & _).
    rewrite H in Hrun. discriminate.
  - rewrite processModelData_missing in Hrun by done. by injection Hrun as _ <-.
Qed.

(** [addModel] once the import has succeeded: the processing function runs on
    the store with the imported objects, and what it returns decides the
    rest. *)
Lemma addModel_run this w args st a :
  fetch w (url args) = inr a ->
  let st0 := set_requests (fun l => l ++ [url args]) st in
  let name := model_name args in
  addModel this w args st =
  match default (fun data => _processModelData data VUndefined) (process args)
                (importData a st0) (importAsset a st0) with
  | (Rejected e, st2) => (Rejected e, st2)
  | (Fulfilled model, st2) =>
      let root := length (meshes st2) in
      (Fulfilled model,
       mkStore
         (alter (fun m => with_scaling (setAll (default (num_of_int 15)
                                                        (model_scale args)))
                            (with_parent (Some root) m))
                (model_mesh model)
                (meshes st2 ++ [newMeshValue (name ++ " Root") None]))
         (set_useLogarithmicDepth w true <$> materials st2)
         (textures st2) (animationGroups st2)
         (listeners st2 ++
            [ (nftDataEvent (uuid this) name, OnNFTData_model (model_mesh model));
              (matrixEvent (uuid this) name, OnMatrix root);
              (trackingLostEvent (uuid this) name,
               OnTrackingLost root (default false (model_visibility args))) ])
         (requests st2))
  end.
Proof.
  intros Hf st0 name. unfold addModel.
  unfold bind at 1. unfold SceneLoader_ImportMeshAsync. rewrite Hf.
  cbv zeta. unfold bind at 1. fold st0.
  destruct (default _ (process args) _ _) as [[model|e] st2]; [|done].
  unfold bind, new_Mesh, modify, addEventListener, _addRoot, ret, bind,
    modify, addEventListener.
  cbn. f_equal. apply Store_ext; cbn; try done.
  - by rewrite alter_twice.
  - by rewrite <- !app_assoc.
Qed.

(** [addModel] with the default processing, the import succeeding. *)
Lemma addModel_default this w args st a :
  fetch w (url args) = inr a ->
  process args = None ->
  let st0 := set_requests (fun l => l ++ [url args]) st in
  match List.find (meshIdIs (importAsset a st0) "__root__")
                  (data_meshes (importData a st0)) with
  | None =>
      addModel this w args st
      = (Rejected (TypeError "Cannot set properties of undefined (setting 'name')"),
         importAsset a st0)
  | Some c =>
      exists model st',
        addModel this w args st = (Fulfilled model, st')
        /\ model_mesh model = c
        /\ requests st' = requests st ++ [url args]
        /\ (exists m, meshes st' !! c = Some m
                      /\ mesh_name m = "undefined Mesh"
                      /\ mesh_id m = "undefined Mesh")
        /\ (forall g, model_animation model = Some g ->
              exists ag, animationGroups st' !! g = Some ag
                         /\ ag_name ag = "undefined Animation")
  end.
Proof.
  intros Hf Hp st0. pose proof (addModel_run this w args st a Hf) as Hrun.
  cbv zeta in Hrun. rewrite Hp in Hrun. cbn [default] in Hrun. fold st0 in Hrun.
  destruct (List.find _ _) as [c|] eqn:Hfind.
  - destruct (processModelData_found _ VUndefined _ _ Hfind)
      as (model & st2 & Hproc & Hc).
    rewrite Hproc in Hrun. eexists model, _. split; [exact Hrun|].
    split; [done|].
    destruct (processModelData_names _ _ _ _ _ Hproc) as [(m & Hm & Hn & Hi) Hanim].
    destruct (processModelData_run _ _ _ _ _ Hproc)
      as (_ & _ & _ & _ & _ & _ & Hrs & _).
    simpl. split; [by rewrite Hrs|]. split; [|exact Hanim].
    rewrite <- Hc, list_lookup_alter_eq, lookup_app_l
      by (by apply lookup_lt_Some in Hm).
    rewrite Hm. simpl. eauto.
  - by rewrite processModelData_missing in Hrun.
Qed.

(** ** The invariant is kept *)

Lemma wf_initial : wf (@initialStore num).
Proof.
  split; simpl; try (by constructor); by intros ? ? [].
Qed.

Lemma positions_old st r N :
  wf st -> r < length (meshes st) ->
  Forall (fun p : option nat =>
            forall q, p = Some q -> length (meshes st) <= q) N ->
  positions r (length (parents st)) N = [].
Proof.
  intros _ Hr HN. apply positions_absent.
  eapply Forall_impl; [exact HN|]. simpl. intros p Hp ->.
  specialize (Hp r eq_refl). lia.
Qed.

Lemma positions_new st a :
  wf st -> length (meshes st) <= a -> positions a 0 (parents st) = [].
Proof.
  intros Hwf Ha. apply positions_absent.
  eapply Forall_impl; [exact (wf_parent st Hwf)|]. simpl. intros p Hp ->.
  specialize (Hp a eq_refl). lia.
Qed.

(** Growing the scene by the nodes [N] and the listeners [newL]. *)
Lemma wf_extend st st' (N : list (option nat)) (newL : list (string * Listener)) :
  wf st ->
  parents st' = parents st ++ N ->
  listeners st' = listeners st ++ newL ->
  Forall (fun p : option nat =>
            forall q, p = Some q ->
                      length (meshes st) <= q < length (meshes st) + length N) N ->
  Forall (fun tl : string * Listener =>
            String.prefix (kindPrefix (kind tl.2)) tl.1 = true) newL ->
  NoDup ((fun tl : string * Listener => (kind tl.2, target tl.2)) <$> newL) ->
  Forall (fun tl : string * Listener =>
            length (meshes st) <= target tl.2 < length (meshes st) + length N) newL ->
  (forall t a, In (t, OnMatrix a) newL ->
     N !! (a - length (meshes st)) = Some None
     /\ length (positions a (length (meshes st)) N) = 1) ->
  wf st'.
Proof.
  intros Hwf Hps Hls HN Hkind Hkey Htgt Hanchor.
  assert (Hlen : length (meshes st') = length (meshes st) + length N).
  { by rewrite <- !length_parents, Hps, length_app. }
  split.
  - rewrite Hls. apply Forall_app. split; [apply (wf_kind st Hwf) | done].
  - rewrite Hls, fmap_app. apply NoDup_app. split; [apply (wf_key st Hwf)|].
    split; [|done].
    intros [k n] Hold Hnew.
    apply list_elem_of_fmap in Hold as ([t1 l1] & [= -> ->] & Hin1).
    apply list_elem_of_fmap in Hnew as ([t2 l2] & [= _ Heq] & Hin2).
    pose proof (wf_target st Hwf) as H1. rewrite Forall_forall in H1.
    apply H1 in Hin1. rewrite Forall_forall in Htgt. apply Htgt in Hin2.
    simpl in *. lia.
  - rewrite Hls, Hlen. apply Forall_app. split.
    + eapply Forall_impl; [apply (wf_target st Hwf)|]. simpl. intros; lia.
    + eapply Forall_impl; [exact Htgt|]. simpl. intros; lia.
  - rewrite Hps, Hlen. apply Forall_app. split.
    + eapply Forall_impl; [apply (wf_parent st Hwf)|]. simpl.
      intros p Hp q Hq. specialize (Hp q Hq). lia.
    + eapply Forall_impl; [exact HN|]. simpl.
      intros p Hp q Hq. specialize (Hp q Hq). lia.
  - intros t r Hin. rewrite Hls in Hin. apply in_app_or in Hin as [Hin|Hin].
    + destruct (wf_anchor st Hwf t r Hin) as [Hr Hch].
      assert (Hlt : r < length (meshes st)).
      { rewrite <- length_parents. by apply lookup_lt_Some in Hr. }
      unfold childrenOf. rewrite Hps. split.
      * rewrite lookup_app_l by (by rewrite length_parents). done.
      * rewrite positions_app, length_app. simpl.
        rewrite (positions_old st r N Hwf Hlt); [simpl; unfold childrenOf in Hch; lia|].
        eapply Forall_impl; [exact HN|]. simpl.
        intros p Hp q Hq. specialize (Hp q Hq). lia.
    + destruct (Hanchor t r Hin) as [Hr Hch].
      assert (Hge : length (meshes st) <= r).
      { rewrite Forall_forall in Htgt.
        apply list_elem_of_In in Hin. apply Htgt in Hin. simpl in Hin. lia. }
      unfold childrenOf. rewrite Hps. split.
      * rewrite lookup_app_r by (by rewrite length_parents).
        by rewrite length_parents.
      * rewrite positions_app, length_app. simpl.
        rewrite (positions_new st r Hwf Hge). simpl.
        by rewrite length_parents.
Qed.

Lemma elem_of_positions r base ps c :
  c ∈ positions r base ps -> base <= c /\ ps !! (c - base) = Some (Some r).
Proof.
  revert base. induction ps as [|p ps IH]; intros base; simpl.
  - by intros ?%elem_of_nil.
  - rewrite elem_of_app. intros [Hc|Hc].
    + destruct (decide (p = Some r)) as [->|]; [|by apply elem_of_nil in Hc].
      apply list_elem_of_singleton in Hc as ->. by rewrite Nat.sub_diag.
    + apply IH in Hc as [Hle Hc]. split; [lia|].
      replace (c - base) with (S (c - S base)) by lia. done.
Qed.

Lemma extended_wf st st' : wf st -> Extended st st' -> wf st'.
Proof.
  intros Hwf (N & Hps & HN & Hls).
  apply (wf_extend st st' N []); try done.
  - by rewrite app_nil_r.
  - constructor.
Qed.

(** A fulfilled call keeps the invariant; the new anchor has the content of
    the call as its only child. *)
Lemma attached_content this name v st st' c a onData :
  Attached this name v st st' c a onData ->
  length (meshes st) <= c < length (meshes st') /\ c <> a
  /\ parents st' !! c = Some (Some a).
Proof.
  intros (N & Hps & HN & Ha & HaN & Hpos & _).
  assert (Hc : c ∈ positions a (length (meshes st)) N)
    by (rewrite Hpos; apply list_elem_of_here).
  apply elem_of_positions in Hc as [Hge Hc].
  pose proof (lookup_lt_Some _ _ _ Hc) as Hlt.
  assert (Hlen : length (meshes st') = length (meshes st) + length N).
  { by rewrite <- !length_parents, Hps, length_app. }
  split; [lia|]. split.
  - intros ->. rewrite HaN in Hc. discriminate.
  - rewrite Hps, lookup_app_r by (rewrite length_parents; lia).
    by rewrite length_parents.
Qed.

Lemma attached_wf this name v st st' c a onData :
  wf st -> Attached this name v st st' c a onData ->
  wf st' /\ childrenOf st' a = [c].
Proof.
  intros Hwf Hatt. destruct (attached_content _ _ _ _ _ _ _ _ Hatt) as (Hc & Hne & _).
  destruct Hatt as (N & Hps & HN & Ha & HaN & Hpos & Hk & Ht & _ & Hls).
  assert (Hlen : length (meshes st') = length (meshes st) + length N).
  { by rewrite <- !length_parents, Hps, length_app. }
  split.
  - apply (wf_extend st st' N _ Hwf Hps Hls HN).
    + destruct (prefix_event_names (uuid this) name) as (H1 & H2 & H3).
      repeat constructor; cbn [fst snd]; rewrite ?Hk; done.
    + simpl. rewrite Hk, Ht. repeat constructor; simpl.
      * rewrite !not_elem_of_cons. repeat split; try done. apply not_elem_of_nil.
      * rewrite !not_elem_of_cons. repeat split; try done. apply not_elem_of_nil.
      * apply not_elem_of_nil.
    + repeat constructor; simpl; rewrite ?Ht; lia.
    + intros t r [Hin|[Hin|[Hin|[]]]].
      * injection Hin as _ Hin. rewrite Hin in Hk. discriminate.
      * injection Hin as _ <-. split; [done | by rewrite Hpos].
      * discriminate.
  - unfold childrenOf. rewrite Hps, positions_app. simpl.
    rewrite (positions_new st a Hwf) by lia. by rewrite length_parents.
Qed.


(** One call: fulfilled, it attaches; rejected, it only extends the scene. *)
Lemma importAsset_parents a st :
  exists N, parents (importAsset a st) = parents st ++ N
            /\ length N = length (asset_meshes a)
            /\ fresh_parents st N.
Proof.
  exists (mesh_parent <$> (importedMesh a (length (meshes st)) (length (materials st))
                             <$> asset_meshes a)).
  split; [unfold parents; simpl; by rewrite fmap_app|].
  split; [by rewrite !length_fmap|].
  unfold fresh_parents. rewrite !length_fmap.
  apply Forall_fmap, Forall_fmap, Forall_forall. intros x _ q. simpl.
  destruct (am_parent x) as [p|]; simpl; [|discriminate].
  case_decide; [|discriminate]. intros [= <-]. lia.
Qed.

Lemma isUnder_outside fuel (s : @Store num) cut l i :
  (forall j p, j < cut -> parents s !! j = Some (Some p) -> p < cut) ->
  cut <= l -> i < cut -> isUnder fuel s l i = false.
Proof.
  intros Hclosed Hl. revert i. induction fuel as [|fuel IH]; intros i Hi; simpl.
  - rewrite bool_decide_eq_false_2 by lia. done.
  - rewrite bool_decide_eq_false_2 by lia. simpl.
    destruct (meshes s !! i) as [m|] eqn:Hm; [|done].
    destruct (mesh_parent m) as [p|] eqn:Hp; [|done].
    apply IH. apply (Hclosed i p Hi). apply parents_lookup. eauto.
Qed.

Lemma dispose_parents l (s : @Store num) P N :
  parents s = P ++ N ->
  (forall j p, j < length P -> P !! j = Some (Some p) -> p < length P) ->
  length P <= l ->
  exists N', parents (dispose l s) = P ++ N' /\ length N' = length N
             /\ (forall i p, N' !! i = Some (Some p) -> N !! i = Some (Some p)).
Proof.
  intros Hps Hclosed Hl.
  set (f := fun i (p : option nat) =>
              if isUnder (length (meshes s)) s l i then None else p).
  assert (Hd : parents (dispose l s) = imap f (parents s)).
  { apply list_eq. intros i. unfold parents.
    rewrite list_lookup_fmap, dispose_lookup, list_lookup_imap, list_lookup_fmap.
    destruct (meshes s !! i) as [m|]; simpl; [|done].
    unfold f. by destruct (isUnder _ _ _ _). }
  exists (imap (fun n => f (length P + n)) N).
  rewrite Hd, Hps, imap_app. split; [|split].
  - f_equal. apply list_eq. intros i. rewrite list_lookup_imap.
    destruct (P !! i) as [p|] eqn:Hp; simpl; [|done].
    pose proof (lookup_lt_Some _ _ _ Hp) as Hlt.
    unfold f. rewrite (isUnder_outside _ s (length P) l i); try done.
    intros j q Hj Hq. apply (Hclosed j q Hj).
    by rewrite Hps, lookup_app_l in Hq.
  - apply length_imap.
  - intros i p. rewrite list_lookup_imap.
    destruct (N !! i) as [x|]; simpl; [|discriminate].
    unfold f. destruct (isUnder _ _ _ _); [discriminate|]. by intros [= ->].
Qed.

Lemma fresh_parents_shrink st (N N' : list (option nat)) :
  fresh_parents st N -> length N' = length N ->
  (forall i p, N' !! i = Some (Some p) -> N !! i = Some (Some p)) ->
  fresh_parents st N'.
Proof.
  unfold fresh_parents. intros HN Hlen Hsub. rewrite Hlen.
  apply Forall_lookup_2. intros i x Hx q ->.
  apply Hsub in Hx. by apply (Forall_lookup_1 _ _ _ _ HN Hx q).
Qed.

Lemma wf_closed st j p :
  wf st -> j < length (parents st) -> parents st !! j = Some (Some p) ->
  p < length (parents st).
Proof.
  intros Hwf _ Hj. rewrite length_parents.
  by apply (Forall_lookup_1 _ _ _ _ (wf_parent st Hwf) Hj p).
Qed.

(** The parent links after the default processing: those of the nodes that
    were in the scene before the import are kept. *)
Lemma processed_parents data name st model st' P N :
  _processModelData data name st = (Fulfilled model, st') ->
  parents st = P ++ N ->
  (forall j p, j < length P -> P !! j = Some (Some p) -> p < length P) ->
  Forall (fun r => length P <= r) (data_meshes data) ->
  exists N', parents st' = P ++ N' /\ length N' = length N
             /\ (forall i p, N' !! i = Some (Some p) -> N !! i = Some (Some p)).
Proof.
  intros Hrun Hps Hclosed Hdata.
  destruct (processModelData_run _ _ _ _ _ Hrun) as (_ & _ & Hms & _).
  cbv zeta in Hms.
  set (renamed := updMesh (model_mesh model) _ st) in Hms.
  assert (Hren : parents renamed = P ++ N).
  { subst renamed. by rewrite parents_updMesh. }
  destruct (List.find _ _) as [l|] eqn:Hfind.
  - apply find_some in Hfind as [Hin _]. rewrite Forall_forall in Hdata.
    apply list_elem_of_In, Hdata in Hin.
    destruct (dispose_parents l renamed P N Hren Hclosed Hin) as (N' & H1 & H2 & H3).
    exists N'. unfold parents in *. by rewrite Hms.
  - exists N. unfold parents in *. by rewrite Hms.
Qed.

Lemma positions_alter_fresh r b i (L : list (option nat)) :
  Forall (fun p => p <> Some r) L -> i < length L ->
  positions r b (alter (fun _ => Some r) i L) = [b + i].
Proof.
  intros HL. revert b i. induction HL as [|p L Hp HL IH]; intros b i Hi; [simpl in Hi; lia|].
  destruct i as [|i]; simpl.
  - rewrite decide_True by done. rewrite positions_absent by done.
    by rewrite Nat.add_0_r.
  - rewrite decide_False by done. simpl.
    change (list_alter ?f i L) with (alter f i L).
    rewrite IH by (simpl in Hi; lia). f_equal. lia.
Qed.

(** A fulfilled [addModel] (default processing) on a well-formed store. *)
Lemma addModel_attached this w args st model st' :
  wf st -> process args = None ->
  addModel this w args st = (Fulfilled model, st') ->
  exists a,
    Attached this (model_name args) (default false (model_visibility args))
             st st' (model_mesh model) a (OnNFTData_model (model_mesh model)).
Proof.
  intros Hwf Hp Hadd. destruct (fetch w (url args)) as [e|a] eqn:Hf.
  { by rewrite (addModel_fetch_failed _ _ _ _ e Hf) in Hadd. }
  pose proof (addModel_run this w args st a Hf) as Hrun.
  cbv zeta in Hrun. rewrite Hp in Hrun. cbn [default] in Hrun.
  set (st0 := set_requests (fun l => l ++ [url args]) st) in *.
  destruct (_processModelData _ _ _) as [[model2|e] st2] eqn:Hproc;
    [|by rewrite Hrun in Hadd].
  rewrite Hrun in Hadd. injection Hadd as <- <-. clear Hrun.
  destruct (importAsset_parents a st0) as (N1 & Hps1 & Hlen1 & Hfresh1).
  change (parents st0) with (parents st) in Hps1.
  change (fresh_parents st0 N1) with (fresh_parents st N1) in Hfresh1.
  destruct (processed_parents _ _ _ _ _ (parents st) N1 Hproc Hps1)
    as (N2 & Hps2 & Hlen2 & Hsub).
  { intros j p. apply (wf_closed st j p Hwf). }
  { simpl. apply Forall_forall. intros r Hr%elem_of_seq.
    rewrite length_parents. simpl in Hr. lia. }
  pose proof (fresh_parents_shrink st N1 N2 Hfresh1 Hlen2 Hsub) as Hfresh2.
  destruct (processModelData_run _ _ _ _ _ Hproc) as (Hfind & _ & _ & _ & _ & Hls & _).
  apply find_some in Hfind as [Hin _]. simpl in Hin.
  apply list_elem_of_In, elem_of_seq in Hin. simpl in Hin.
  set (base := length (meshes st)) in *. set (c := model_mesh model2) in *.
  assert (Hlen : length (meshes st2) = base + length N2).
  { rewrite <- length_parents, Hps2, length_app, length_parents. done. }
  exists (base + length N2).
  exists (alter (fun _ => Some (base + length N2)) (c - base) (N2 ++ [None])).
  assert (HN2 : Forall (fun p : option nat => p <> Some (base + length N2))
                       (N2 ++ [None])).
  { apply Forall_app. split; [|by repeat constructor].
    eapply Forall_impl; [exact Hfresh2|]. simpl. intros p Hq ->.
    specialize (Hq _ eq_refl). lia. }
  split.
  { unfold parents at 1. cbn [meshes].
    rewrite (list_fmap_alter mesh_parent _ (fun _ => Some (base + length N2)))
      by (apply Forall_forall; intros; by rewrite Hlen).
    rewrite fmap_app. fold (parents st2). rewrite Hps2, <- app_assoc. simpl.
    replace c with (length (parents st) + (c - base)) at 1
      by (rewrite length_parents; lia).
    by rewrite alter_app_r. }
  split.
  { unfold fresh_parents. rewrite length_alter, length_app. simpl.
    apply Forall_alter.
    - apply Forall_app. split; [|by repeat constructor].
      eapply Forall_impl; [exact Hfresh2|]. simpl. intros p Hq q ->.
      specialize (Hq _ eq_refl). fold base in Hq. lia.
    - intros x _ _ q [= <-]. fold base. lia. }
  split.
  { rewrite length_alter, length_app. simpl. fold base. lia. }
  split.
  { replace (base + length N2 - length (meshes st)) with (length N2)
      by (unfold base; lia).
    rewrite list_lookup_alter_ne by lia. apply lookup_snoc. }
  split.
  { fold base. rewrite positions_alter_fresh; [f_equal; lia | done |].
    rewrite length_app. simpl. lia. }
  do 2 (split; [done|]). split.
  { eexists. split; [|shelve]. cbn [meshes].
    rewrite list_lookup_alter_ne by lia. rewrite <- Hlen. apply lookup_snoc.
    Unshelve. reflexivity. }
  cbn [listeners]. by rewrite Hls, Hlen.
Qed.

Lemma attach_listeners this w r st ok st' :
  default_processing r = true ->
  attach this w r st = (ok, st') ->
  exists new, listeners st' = listeners st ++ new
              /\ length new = if ok then 3 else 0.
Proof.
  intros Hdef Hrun.
  destruct r as [args|args|args]; unfold attach in Hrun; simpl in Hdef.
  - destruct (process args) eqn:Hp; [discriminate|].
    destruct (fetch w (url args)) as [e|a] eqn:Hf.
    { rewrite (addModel_fetch_failed _ _ _ _ e Hf) in Hrun.
      injection Hrun as <- <-. exists []. by rewrite app_nil_r. }
    rewrite (addModel_run this w args st a Hf), Hp in Hrun. cbn [default] in Hrun.
    destruct (_processModelData _ _ _) as [[model|e] st2] eqn:Hproc;
      injection Hrun as <- <-.
    + destruct (processModelData_run _ _ _ _ _ Hproc) as (_ & _ & _ & _ & _ & Hls & _).
      eexists. split; [cbn [listeners]; rewrite Hls; reflexivity | reflexivity].
    + apply processModelData_rejected in Hproc as ->.
      exists []. by rewrite app_nil_r.
  - rewrite addVideo_spec in Hrun. injection Hrun as <- <-. by eexists.
  - rewrite addImage_spec in Hrun. injection Hrun as <- <-. by eexists.
Qed.

Lemma attach_step this w r st ok st' :
  wf st ->
  default_processing r = true ->
  attach this w r st = (ok, st') ->
  if ok
  then exists c a,
         Attached this (request_name r) (request_visibility r) st st' c a
                  (onNFTData r c)
  else Extended st st'.
Proof.
  intros Hwf Hdef Hrun.
  destruct r as [args|args|args]; unfold attach in Hrun; simpl in Hdef |- *.
  - destruct (process args) eqn:Hp; [discriminate|].
    destruct (addModel this w args st) as [[model|e] st1] eqn:Hadd;
      injection Hrun as <- <-.
    + destruct (addModel_attached _ _ _ _ _ _ Hwf Hp Hadd) as [a Hatt]. eauto.
    + destruct (fetch w (url args)) as [e'|a] eqn:Hf.
      * rewrite (addModel_fetch_failed _ _ _ _ e' Hf) in Hadd.
        injection Hadd as _ <-. exists []. simpl. rewrite app_nil_r.
        split; [done|]. split; [constructor | done].
      * pose proof (addModel_default this w args st a Hf Hp) as H. cbv zeta in H.
        destruct (List.find _ _) as [c|].
        -- destruct H as (model & st2 & H & _). rewrite H in Hadd. discriminate.
        -- rewrite H in Hadd. injection Hadd as _ <-.
           destruct (importAsset_parents a (set_requests (fun l => l ++ [url args]) st))
             as (N & HN & _ & Hfresh).
           exists N. done.
  - destruct (addVideo this w args st) as [[v|e] st1] eqn:Hadd.
    + injection Hrun as <- <-. apply addVideo_attached in Hadd.
      eexists _, _. exact Hadd.
    + rewrite addVideo_spec in Hadd. discriminate.
  - destruct (addImage this w args st) as [[v|e] st1] eqn:Hadd.
    + injection Hrun as <- <-. apply addImage_attached in Hadd.
      eexists _, _. exact Hadd.
    + rewrite addImage_spec in Hadd. discriminate.
Qed.

Lemma attach_wf this w r st ok st' :
  wf st -> default_processing r = true ->
  attach this w r st = (ok, st') -> wf st'.
Proof.
  intros Hwf Hdef Hrun. pose proof (attach_step _ _ _ _ _ _ Hwf Hdef Hrun) as H.
  destruct ok.
  - destruct H as (c & a & Hatt).
    by destruct (attached_wf _ _ _ _ _ _ _ _ Hwf Hatt).
  - by apply (extended_wf st).
Qed.

(** ** Anchors *)

Lemma elem_of_anchorsOn t ls r : r ∈ anchorsOn t ls <-> In (t, OnMatrix r) ls.
Proof.
  unfold anchorsOn. rewrite list_elem_of_omap, <- list_elem_of_In. split.
  - intros ([t' l] & Hin & Heq). destruct l; try discriminate.
    destruct (String.eqb_spec t' t); [|discriminate].
    injection Heq as ->. by subst.
  - intros Hin. exists (t, OnMatrix r). split; [done|]. by rewrite String.eqb_refl.
Qed.

Lemma anchorsOn_app t ls1 ls2 :
  anchorsOn t (ls1 ++ ls2) = anchorsOn t ls1 ++ anchorsOn t ls2.
Proof. unfold anchorsOn. apply omap_app. Qed.

Lemma anchorsOn_NoDup t ls :
  NoDup ((fun tl : string * Listener => (kind tl.2, target tl.2)) <$> ls) ->
  NoDup (anchorsOn t ls).
Proof.
  induction ls as [|[t' l] ls IH]; intros Hnd; [constructor|].
  rewrite fmap_cons in Hnd. apply NoDup_cons in Hnd as [Hfresh Hnd].
  specialize (IH Hnd). unfold anchorsOn in *. simpl.
  destruct l as [r| | | |]; try done.
  destruct (String.eqb t' t); [|done].
  apply NoDup_cons. split; [|done].
  intros Hin. apply (elem_of_anchorsOn t ls r) in Hin. apply Hfresh.
  apply list_elem_of_fmap. exists (t, OnMatrix r). split; [done|].
  by apply list_elem_of_In.
Qed.

Lemma attached_anchors this name v st st' c a onData :
  Attached this name v st st' c a onData ->
  anchorsOf this name st' = anchorsOf this name st ++ [a].
Proof.
  intros (i & j & _ & _ & _ & _ & Hk & _ & _ & Hls).
  unfold anchorsOf. rewrite Hls, anchorsOn_app. f_equal.
  unfold anchorsOn. simpl. rewrite String.eqb_refl.
  destruct onData; try discriminate; done.
Qed.

Lemma extended_anchors this name st st' :
  Extended st st' -> anchorsOf this name st' = anchorsOf this name st.
Proof. intros (N & _ & _ & Hls). unfold anchorsOf. by rewrite Hls. Qed.

(** ** The three events on a well-formed store *)

Lemma registered_kind st t l k :
  wf st -> In (t, l) (listeners st) ->
  (forall k', String.prefix (kindPrefix k') t = true -> k' = k) ->
  kind l = k.
Proof.
  intros Hwf Hin Hk. apply Hk.
  pose proof (wf_kind st Hwf) as H. rewrite Forall_forall in H.
  apply (H (t, l)). by apply list_elem_of_In.
Qed.

(** A pose event: every anchor of the marker takes the pose of the payload;
    nothing else changes. *)
Lemma dispatch_matrix this name obj st :
  wf st ->
  exists st' M,
    dispatchEvent (matrixEvent (uuid this) name) (DetailMatrix obj) st = Some st'
    /\ _objectToMatrix obj = M
    /\ (length M = 16
        /\ forall i, i < 16 ->
             M !! i = Some (match obj !! i with Some v => fround v | None => NaN end))
    /\ wf st' /\ listeners st' = listeners st /\ parents st' = parents st
    /\ (forall a, a ∈ anchorsOf this name st ->
          exists m, meshes st !! a = Some m /\ meshes st' !! a = Some (posed M m))
    /\ (forall i, i ∉ anchorsOf this name st -> meshes st' !! i = meshes st !! i).
Proof.
  intros Hwf.
  set (t := matrixEvent (uuid this) name).
  assert (Hk : forall k', String.prefix (kindPrefix k') t = true -> k' = KMatrix)
    by (intros k'; apply prefix_matrix_kind).
  assert (Hl : forall l, In (t, l) (listeners st) -> l = OnMatrix (target l)).
  { intros l Hin. pose proof (registered_kind st t l _ Hwf Hin Hk).
    by destruct l. }
  destruct (dispatch_spec KMatrix t (DetailMatrix obj) st Hwf Hk)
    as (st' & Hrun & Hls & Hps & Hwf' & Hframe & Heff).
  exists st', (_objectToMatrix obj). split; [done|]. split; [done|].
  split; [apply objectToMatrix_entries|]. repeat (split; [done|]). split.
  - intros a Ha. apply elem_of_anchorsOn in Ha.
    destruct (wf_anchor st Hwf _ _ Ha) as [Hpar _].
    apply parents_lookup in Hpar as (m & Hm & _).
    exists m. split; [done|].
    pose proof (Heff (OnMatrix a) Ha) as H. simpl in H.
    by rewrite H, Hm.
  - intros i Hi. apply Hframe. intros l Hin <-. apply Hi.
    apply elem_of_anchorsOn. by rewrite <- (Hl l Hin).
Qed.

(** A tracking-lost event: every anchor of the marker is enabled or disabled
    as its attachment asked; the pose is kept. *)
Lemma dispatch_trackingLost this name e st :
  wf st ->
  exists st',
    dispatchEvent (trackingLostEvent (uuid this) name) e st = Some st'
    /\ wf st' /\ listeners st' = listeners st /\ parents st' = parents st
    /\ (forall a v,
          In (trackingLostEvent (uuid this) name, OnTrackingLost a v) (listeners st) ->
          meshes st' !! a = with_enabled v <$> meshes st !! a)
    /\ (forall i,
          (forall v, ~ In (trackingLostEvent (uuid this) name, OnTrackingLost i v)
                        (listeners st)) ->
          meshes st' !! i = meshes st !! i).
Proof.
  intros Hwf. set (t := trackingLostEvent (uuid this) name).
  assert (Hk : forall k', String.prefix (kindPrefix k') t = true -> k' = KTrackingLost)
    by (intros k'; apply prefix_lost_kind).
  assert (Hl : forall l, In (t, l) (listeners st) ->
                         exists v, l = OnTrackingLost (target l) v).
  { intros l Hin. pose proof (registered_kind st t l _ Hwf Hin Hk).
    destruct l; try discriminate. eauto. }
  destruct (dispatch_spec KTrackingLost t e st Hwf Hk)
    as (st' & Hrun & Hls & Hps & Hwf' & Hframe & Heff).
  exists st'. repeat (split; [done|]). split.
  - intros a v Hin. by apply (Heff (OnTrackingLost a v)).
  - intros i Hi. apply Hframe. intros l Hin <-.
    destruct (Hl l Hin) as [v Hv]. apply (Hi v). by rewrite <- Hv.
Qed.

(** A marker-dimensions event: the content of every attachment of the marker
    is recentred by the listener of its attacher. *)
Lemma dispatch_nftData this name width height dpi st :
  wf st ->
  exists st',
    dispatchEvent (nftDataEvent (uuid this) name) (DetailNFT width height dpi) st
    = Some st'
    /\ wf st' /\ listeners st' = listeners st /\ parents st' = parents st
    /\ (forall l,
          In (nftDataEvent (uuid this) name, l) (listeners st) ->
          meshes st' !! target l
          = effect l (DetailNFT width height dpi) <$> meshes st !! target l).
Proof.
  intros Hwf. set (t := nftDataEvent (uuid this) name).
  assert (Hk : forall k', String.prefix (kindPrefix k') t = true -> k' = KNFTData)
    by (intros k'; apply prefix_nft_kind).
  destruct (dispatch_spec KNFTData t (DetailNFT width height dpi) st Hwf Hk)
    as (st' & Hrun & Hls & Hps & Hwf' & Hframe & Heff).
  exists st'. repeat (split; [done|]). exact Heff.
Qed.

(** ** The invariant on the renderer's stores *)

Lemma handle_updates l e st st' :
  handle l e st = Some st' -> st' = updMesh (target l) (effect l e) st.
Proof.
  destruct l as [root|root v|c|c|c]; simpl.
  - assert (Hpose : forall obj,
              pose root obj (setEnabled root true st) = Some st' ->
              st' = updMesh root (posed (_objectToMatrix obj)) st).
    { intros obj. unfold pose, setAbsolutePosition.
      destruct (meshes _ !! root) as [m|]; [|discriminate].
      destruct (mesh_parent m); [discriminate|].
      intros [= <-].
      unfold setEnabled, updMesh, set_meshes. simpl. by rewrite !alter_twice. }
    destruct e as [obj| |]; [apply Hpose | apply Hpose | by intros [= <-]].
  - intros [= <-]. by rewrite negb_involutive.
  - destruct e; simpl; intros [= <-]; rewrite ?updMesh_id; try done;
      unfold set_position_x, set_position_y, updMesh, set_meshes; simpl;
      by rewrite alter_twice.
  - destruct e; simpl; intros [= <-]; rewrite ?updMesh_id; try done;
      unfold set_position_x, set_position_y, updMesh, set_meshes; simpl;
      by rewrite alter_twice.
  - destruct e; simpl; intros [= <-]; rewrite ?updMesh_id; try done;
      unfold set_position_x, set_position_y, updMesh, set_meshes; simpl;
      by rewrite alter_twice.
Qed.

Lemma handle_frame l e st st' :
  handle l e st = Some st' ->
  listeners st' = listeners st /\ parents st' = parents st.
Proof.
  intros ->%handle_updates. split; [done|].
  apply parents_updMesh. intros m. apply effect_parent.
Qed.

Lemma runListeners_frame ls t e st st' :
  runListeners ls t e st = Some st' ->
  listeners st' = listeners st /\ parents st' = parents st.
Proof.
  revert st. induction ls as [|[t' l] ls IH]; intros st; simpl.
  - by intros [= <-].
  - destruct (String.eqb t' t); [|apply IH].
    destruct (handle l e st) as [st1|] eqn:Hh; simpl; [|discriminate].
    intros Hrun. apply IH in Hrun as [-> ->]. by apply handle_frame in Hh.
Qed.

(** Every store of a renderer is well formed. *)
Lemma built_wf this w st : built this w st -> wf st.
Proof.
  induction 1 as [|r st ok st' _ IH Hdef Hrun|type e st st' _ IH Hrun].
  - apply wf_initial.
  - by apply (attach_wf this w r st ok).
  - apply runListeners_frame in Hrun as [Hls Hps]. by apply (wf_frame st).
Qed.

(** ** Anchors and attachments *)

Lemma attachAll_anchors this w name rs st k st' :
  wf st ->
  Forall (fun r => default_processing r = true /\ request_name r = name) rs ->
  attachAll this w rs st = (k, st') ->
  wf st' /\ exists news, anchorsOf this name st' = anchorsOf this name st ++ news
                         /\ length news = k.
Proof.
  revert st k st'. induction rs as [|r rs IH]; intros st k st' Hwf Hrs Hrun.
  - injection Hrun as <- <-. split; [done|]. exists []. by rewrite app_nil_r.
  - apply Forall_cons in Hrs as [[Hdef Hname] Hrs]. simpl in Hrun.
    destruct (attach this w r st) as [ok st1] eqn:Hr.
    destruct (attachAll this w rs st1) as [k1 st2] eqn:Hrest.
    injection Hrun as <- <-.
    pose proof (attach_wf _ _ _ _ _ _ Hwf Hdef Hr) as Hwf1.
    destruct (IH _ _ _ Hwf1 Hrs Hrest) as (Hwf2 & news & Hnews & Hlen).
    split; [done|].
    pose proof (attach_step _ _ _ _ _ _ Hwf Hdef Hr) as Hstep.
    destruct ok.
    + destruct Hstep as (c & a & Hatt). rewrite Hname in Hatt.
      exists (a :: news). rewrite Hnews, (attached_anchors _ _ _ _ _ _ _ _ Hatt).
      rewrite <- app_assoc. simpl. split; [done | by rewrite Hlen].
    + exists news. by rewrite Hnews, (extended_anchors _ _ _ _ Hstep).
Qed.

(** C1 (as amended): the attachers keep no registry of anchors.  Every
    fulfilled call of [addModel] (default processing), [addVideo] or
    [addImage] for a marker name creates an anchor that was not there before,
    whose only child is the content of that call.  So after [k] fulfilled
    calls for the name there are [k] more anchors, all different, each
    without parent and with exactly one child; a pose event for the name
    moves every one of them. *)
Theorem each_attachment_has_its_own_anchor this w name :
  (forall r st st1,
     wf st -> default_processing r = true -> request_name r = name ->
     attach this w r st = (true, st1) ->
     exists c a,
       anchorsOf this name st1 = anchorsOf this name st ++ [a]
       /\ ~ a ∈ anchorsOf this name st
       /\ childrenOf st1 a = [c]
       /\ In (nftDataEvent (uuid this) name, onNFTData r c) (listeners st1))
  /\ (forall rs st k st',
        wf st ->
        Forall (fun r => default_processing r = true /\ request_name r = name) rs ->
        attachAll this w rs st = (k, st') ->
        length (anchorsOf this name st') = length (anchorsOf this name st) + k
        /\ NoDup (anchorsOf this name st')
        /\ (forall a, a ∈ anchorsOf this name st' ->
              parents st' !! a = Some None /\ length (childrenOf st' a) = 1)
        /\ (forall obj, flat16 obj ->
              exists st'' M,
                dispatchEvent (matrixEvent (uuid this) name) (DetailMatrix obj) st'
                = Some st''
                /\ _objectToMatrix obj = M
                /\ forall a, a ∈ anchorsOf this name st' ->
                     exists m, meshes st' !! a = Some m
                               /\ meshes st'' !! a = Some (posed M m))).
Proof.
  split.
  - intros r st st1 Hwf Hdef Hname Hrun.
    destruct (attach_step _ _ _ _ _ _ Hwf Hdef Hrun) as (c & a & Hatt).
    rewrite Hname in Hatt.
    destruct (attached_wf _ _ _ _ _ _ _ _ Hwf Hatt) as [Hwf1 Hch].
    pose proof (attached_anchors _ _ _ _ _ _ _ _ Hatt) as Hanchors.
    exists c, a. split; [done|]. split; [|split; [done|]].
    + pose proof (anchorsOn_NoDup (matrixEvent (uuid this) name) _ (wf_key st1 Hwf1))
        as Hnd.
      fold (anchorsOf this name st1) in Hnd. rewrite Hanchors in Hnd.
      apply NoDup_app in Hnd as (_ & Hdisj & _).
      intros Hin. apply (Hdisj a Hin). by apply list_elem_of_singleton.
    + destruct Hatt as (N & _ & _ & _ & _ & _ & _ & _ & _ & ->).
      rewrite in_app_iff. right. by left.
  - intros rs st k st' Hwf Hrs Hrun.
    destruct (attachAll_anchors _ _ _ _ _ _ _ Hwf Hrs Hrun)
      as (Hwf' & news & Hnews & Hlen).
    split; [by rewrite Hnews, length_app, Hlen|].
    split; [apply anchorsOn_NoDup, (wf_key st' Hwf')|].
    split.
    + intros a Ha. apply elem_of_anchorsOn in Ha.
      by apply (wf_anchor st' Hwf') in Ha.
    + intros obj Hflat.
      destruct (dispatch_matrix this name obj st' Hwf')
        as (st'' & M & Hrun' & HM & _ & _ & _ & _ & Hall & _).
      by exists st'', M.
Qed.

(** ** Tracking lost *)

(** C3: for an anchor whose attachment asked for [visibility], a
    tracking-lost event for the marker sets the anchor's enabled flag to
    [visibility] and leaves its rotation and position as they were: with
    [false] the anchor is disabled, and so are its children; with [true] it is
    enabled.  A following pose event enables the anchor again and gives it the
    rotation and position of the payload. *)
Theorem tracking_lost_keeps_pose this name st a visibility e :
  wf st ->
  In (matrixEvent (uuid this) name, OnMatrix a) (listeners st) ->
  In (trackingLostEvent (uuid this) name, OnTrackingLost a visibility) (listeners st) ->
  exists st1 m m1,
    dispatchEvent (trackingLostEvent (uuid this) name) e st = Some st1
    /\ meshes st !! a = Some m /\ meshes st1 !! a = Some m1
    /\ mesh_enabled m1 = visibility
    /\ mesh_rotation m1 = mesh_rotation m
    /\ mesh_position m1 = mesh_position m
    /\ (visibility = false ->
        forall c, c ∈ childrenOf st1 a -> isEnabled (length (meshes st1)) st1 c = false)
    /\ forall obj, flat16 obj ->
         exists st2 M m2,
           dispatchEvent (matrixEvent (uuid this) name) (DetailMatrix obj) st1
           = Some st2
           /\ _objectToMatrix obj = M
           /\ meshes st2 !! a = Some m2
           /\ mesh_enabled m2 = true
           /\ mesh_rotation m2
              = Quaternion_toEulerAngles
                  (Quaternion_fromRotationMatrix (Matrix_getRotationMatrix M))
           /\ mesh_position m2 = Vector3_TransformCoordinates Vector3_Zero M.
Proof.
  intros Hwf Hpose Hlost.
  destruct (dispatch_trackingLost this name e st Hwf)
    as (st1 & Hrun & Hwf1 & Hls & Hps & Heff & _).
  destruct (wf_anchor st Hwf _ _ Hpose) as [Hpar _].
  apply parents_lookup in Hpar as (m & Hm & Hnone).
  specialize (Heff a visibility Hlost). rewrite Hm in Heff. simpl in Heff.
  exists st1, m, (with_enabled visibility m).
  repeat (split; [done|]). split.
  - intros -> c Hc. apply elem_of_positions in Hc as [_ Hc].
    rewrite Nat.sub_0_r in Hc. apply parents_lookup in Hc as (mc & Hmc & Hpc).
    assert (c <> a).
    { intros ->. rewrite Heff in Hmc. injection Hmc as <-. simpl in Hpc. congruence. }
    apply lookup_lt_Some in Hmc as Hlc. apply lookup_lt_Some in Heff as Hla.
    destruct (length (meshes st1)) as [|[|n]]; [lia | lia |].
    simpl. rewrite Hmc, Hpc, Heff. simpl. apply andb_false_r.
  - intros obj Hflat.
    destruct (dispatch_matrix this name obj st1 Hwf1)
      as (st2 & M & Hrun2 & HM & _ & _ & _ & _ & Hall & _).
    destruct (Hall a) as (m1 & Hm1 & Hm2).
    { apply elem_of_anchorsOn. by rewrite Hls. }
    exists st2, M, (posed M m1). by repeat (split; [done|]).
Qed.

(** ** The surfaces of [addVideo] and [addImage] *)

(** C6 (the code differs): [addImage] builds the same plane as [addVideo]
    (same size, same parent, same flip, same scaling) and the same black
    material with the texture as emissive texture, but it assigns the texture
    itself, not the material, to [plane.material]. *)
Theorem addImage_plane_material_is_the_texture this w args st :
  let plane := S (length (meshes st)) in
  let material := length (materials st) in
  let texture := length (textures st) in
  exists pv pi mv mi,
    meshes (addVideo this w args st).2 !! plane = Some pv
    /\ meshes (addImage this w args st).2 !! plane = Some pi
    /\ materials (addVideo this w args st).2 !! material = Some mv
    /\ materials (addImage this w args st).2 !! material = Some mi
    /\ mesh_plane pi = mesh_plane pv
    /\ mesh_plane pv = Some (mul (num_of_int 16) (num_of_int 60),
                             mul (num_of_int 9) (num_of_int 60))
    /\ mesh_parent pi = Some (length (meshes st))
    /\ mesh_parent pv = Some (length (meshes st))
    /\ mesh_rotation pi = mesh_rotation pv
    /\ vx (mesh_rotation pv) = Math_PI
    /\ diffuseColor mi = Color3_Black /\ emissiveTexture mi = Some texture
    /\ diffuseColor mv = Color3_Black /\ emissiveTexture mv = Some texture
    /\ mesh_material pv = Some (IsMaterial material)
    /\ mesh_material pi = Some (IsTexture texture).
Proof.
  intros plane material texture. rewrite addVideo_spec, addImage_spec.
  subst plane material texture. eexists _, _, _, _. cbn [snd meshes materials].
  split; [apply lookup_snoc2_1|]. split; [apply lookup_snoc2_1|].
  split; [apply lookup_snoc|]. split; [apply lookup_snoc|].
  simpl. by repeat split.
Qed.

(** C10: in [addImage] the test [typeof texture == "string"] reads the
    variable that was just declared, so it is false whatever [src] is; the
    texture is always built from [src] as a buffer, with a null URL. *)
Theorem addImage_never_takes_the_url_branch this w args st :
  String.eqb (typeof VUndefined) "string" = false
  /\ textures (addImage this w args st).2
     = textures st ++ [ImageTexture None false true (Some (src args))].
Proof. split; [reflexivity|]. by rewrite addImage_spec. Qed.

(** ** Failures *)

(** C7 (as amended): a rejected import rejects the promise of [addModel]
    with the importer's error; the importer was asked once and the scene is
    as before.  [addVideo] and [addImage] build their texture without waiting
    for it and without error callback: their promise is fulfilled whether or
    not the texture can be loaded. *)
Theorem load_failure_only_rejects_addModel this w st :
  (forall args e,
     fetch w (url args) = inl e ->
     addModel this w args st
     = (Rejected e,
        mkStore (meshes st) (materials st) (textures st) (animationGroups st)
                (listeners st) (requests st ++ [url args])))
  /\ (forall args, exists v st', addVideo this w args st = (Fulfilled v, st'))
  /\ (forall args, exists v st', addImage this w args st = (Fulfilled v, st')).
Proof.
  split; [|split].
  - intros args e Hf. by rewrite (addModel_fetch_failed _ _ _ _ e Hf).
  - intros args. rewrite addVideo_spec. eauto.
  - intros args. rewrite addImage_spec. eauto.
Qed.

Lemma find_none_Forall {A} (f : A -> bool) (l : list A) :
  Forall (fun x => f x = false) l -> List.find f l = None.
Proof.
  induction 1 as [|x l Hx _ IH]; simpl; [done|]. by rewrite Hx.
Qed.

Lemma find_some_Exists {A} (f : A -> bool) (l : list A) :
  Exists (fun x => f x = true) l ->
  exists c, List.find f l = Some c /\ In c l /\ f c = true.
Proof.
  induction 1 as [x l Hx|x l _ IH]; simpl.
  - rewrite Hx. eauto.
  - destruct (f x) eqn:Hx; [eauto|].
    destruct IH as (c & -> & Hin & Hc). eauto.
Qed.

(** C8: without a mesh with id [__root__] in the imported data the default
    processing throws (the write to [model.mesh.name] hits [undefined]), and
    so [addModel] rejects; with such a mesh it returns, and the result's mesh
    is that mesh of the data. *)
Theorem default_processing_needs_the_root_mesh data name st :
  (Forall (fun r => meshIdIs st "__root__" r = false) (data_meshes data) ->
   exists msg, _processModelData data name st = (Rejected (TypeError msg), st))
  /\ (Exists (fun r => meshIdIs st "__root__" r = true) (data_meshes data) ->
      exists model st',
        _processModelData data name st = (Fulfilled model, st')
        /\ In (model_mesh model) (data_meshes data)
        /\ meshIdIs st "__root__" (model_mesh model) = true
        /\ List.find (meshIdIs st "__root__") (data_meshes data)
           = Some (model_mesh model))
  /\ (forall this w args a,
        fetch w (url args) = inr a -> process args = None ->
        data = importData a st ->
        Forall (fun r => meshIdIs (importAsset a st) "__root__" r = false)
               (data_meshes data) ->
        exists msg st', addModel this w args st = (Rejected (TypeError msg), st')).
Proof.
  split; [|split].
  - intros Hnone%find_none_Forall. eexists. by apply processModelData_missing.
  - intros Hsome%find_some_Exists. destruct Hsome as (c & Hfind & Hin & Hc).
    destruct (processModelData_found data name st c Hfind)
      as (model & st' & Hrun & <-).
    by exists model, st'.
  - intros this w args a Hf Hp -> Hnone%find_none_Forall.
    pose proof (addModel_default this w args st a Hf Hp) as H. cbv zeta in H.
    change (meshIdIs (importAsset a (set_requests (fun l => l ++ [url args]) st)))
      with (meshIdIs (importAsset a st)) in H.
    change (data_meshes (importData a (set_requests (fun l => l ++ [url args]) st)))
      with (data_meshes (importData a st)) in H.
    rewrite Hnone in H. eauto.
Qed.

(** C9: [addModel] calls the processing function with the data alone.  With
    the default processing the name parameter is therefore [undefined]: the
    root mesh gets the name and the id ["undefined Mesh"], and the animation
    kept as [model.animation] the name ["undefined Animation"], whatever the
    marker name is. *)
Theorem default_processing_never_sees_the_name this w args st model st' :
  process args = None ->
  addModel this w args st = (Fulfilled model, st') ->
  exists m,
    meshes st' !! model_mesh model = Some m
    /\ mesh_name m = "undefined Mesh"
    /\ mesh_id m = "undefined Mesh"
    /\ forall g, model_animation model = Some g ->
         exists ag, animationGroups st' !! g = Some ag
                    /\ ag_name ag = "undefined Animation".
Proof.
  intros Hp Hrun. destruct (fetch w (url args)) as [e|a] eqn:Hf.
  - rewrite (addModel_fetch_failed _ _ _ _ e Hf) in Hrun. discriminate.
  - pose proof (addModel_default this w args st a Hf Hp) as H. simpl in H.
    destruct (List.find _ _) as [c|].
    + destruct H as (model1 & st1 & Hadd & Hc & _ & (m & Hm & Hn & Hi) & Hanim).
      rewrite Hadd in Hrun. injection Hrun as -> ->.
      exists m. rewrite Hc. by repeat split.
    + rewrite H in Hrun. discriminate.
Qed.

(** ** Marker dimensions *)

(** On a well-formed store a marker-dimensions event gives the content of a
    registered listener the offsets of the payload, whatever its position
    was. *)
Lemma nftData_recentres this name width height dpi st l :
  wf st ->
  In (nftDataEvent (uuid this) name, l) (listeners st) ->
  exists st' m m',
    dispatchEvent (nftDataEvent (uuid this) name) (DetailNFT width height dpi) st
    = Some st'
    /\ wf st' /\ listeners st' = listeners st
    /\ meshes st !! target l = Some m
    /\ meshes st' !! target l = Some m'
    /\ vy (mesh_position m') = nftOffset height dpi
    /\ vx (mesh_position m')
       = match l with
         | OnNFTData_image _ => nftOffset height dpi
         | _ => nftOffset width dpi
         end
    /\ vz (mesh_position m') = vz (mesh_position m).
Proof.
  intros Hwf Hin.
  destruct (dispatch_nftData this name width height dpi st Hwf)
    as (st' & Hrun & Hwf' & Hls & _ & Heff).
  assert (Hm : is_Some (meshes st !! target l)).
  { apply lookup_lt_is_Some. pose proof (wf_target st Hwf) as H.
    rewrite Forall_forall in H.
    apply (H (nftDataEvent (uuid this) name, l)). by apply list_elem_of_In. }
  destruct Hm as [m Hm].
  assert (Hk : kind l = KNFTData).
  { apply (registered_kind st _ l _ Hwf Hin). intros k'. apply prefix_nft_kind. }
  destruct l; try discriminate.
  all: eexists st', m, _; repeat (split; [done|]).
  all: split; [by rewrite (Heff _ Hin), Hm | done].
Qed.

Lemma attach_registers this w r st st' :
  wf st -> default_processing r = true -> attach this w r st = (true, st') ->
  wf st' /\ exists c a,
    childrenOf st' a = [c]
    /\ In (nftDataEvent (uuid this) (request_name r), onNFTData r c) (listeners st')
    /\ In (matrixEvent (uuid this) (request_name r), OnMatrix a) (listeners st')
    /\ In (trackingLostEvent (uuid this) (request_name r),
           OnTrackingLost a (request_visibility r)) (listeners st').
Proof.
  intros Hwf Hdef Hrun.
  destruct (attach_step _ _ _ _ _ _ Hwf Hdef Hrun) as (c & a & Hatt).
  destruct (attached_wf _ _ _ _ _ _ _ _ Hwf Hatt) as [Hwf' Hch].
  split; [done|]. exists c, a. split; [done|].
  destruct Hatt as (N & _ & _ & _ & _ & _ & _ & _ & _ & ->).
  rewrite !in_app_iff. simpl. auto 10.
Qed.

Lemma imported_root_found a st :
  Exists (fun x : AssetMesh => am_id x = "__root__") (asset_meshes a) ->
  Exists (fun r => meshIdIs (importAsset a st) "__root__" r = true)
         (data_meshes (importData a st)).
Proof.
  intros H. apply Exists_exists in H as (x & Hx & Hid).
  apply list_elem_of_lookup in Hx as [i Hi].
  pose proof (lookup_lt_Some _ _ _ Hi) as Hlt.
  apply Exists_exists. exists (length (meshes st) + i). split.
  - simpl. apply elem_of_seq. lia.
  - unfold meshIdIs. simpl. rewrite lookup_app_r by lia.
    replace (length (meshes st) + i - length (meshes st)) with i by lia.
    rewrite list_lookup_fmap, Hi. simpl. by rewrite Hid.
Qed.

(** The attachers are fulfilled: [addVideo] and [addImage] always, [addModel]
    (default processing) when the import succeeds and the asset has a node
    with id [__root__]. *)
Lemma attach_fulfilled this w r st :
  default_processing r = true ->
  match r with
  | ReqModel args =>
      exists a, fetch w (url args) = inr a
                /\ Exists (fun x : AssetMesh => am_id x = "__root__")
                          (asset_meshes a)
  | _ => True
  end ->
  exists st1, attach this w r st = (true, st1).
Proof.
  intros Hdef Hok. destruct r as [args|args|args]; unfold attach; simpl in Hdef.
  - destruct (process args) eqn:Hp; [discriminate|].
    destruct Hok as (a & Hf & Hroot).
    pose proof (addModel_default this w args st a Hf Hp) as H. cbv zeta in H.
    apply (imported_root_found a (set_requests (fun l => l ++ [url args]) st)),
      find_some_Exists in Hroot as (c & Hfind & _).
    rewrite Hfind in H. destruct H as (model & st1 & -> & _). eauto.
  - rewrite addVideo_spec. eauto.
  - rewrite addImage_spec. eauto.
Qed.

End Properties.

(** ** The pose listener on the engine *)

Section BabylonFacts.

Variable lib : MathLib.

Local Open Scope float_scope.

Lemma objectToMatrix_exact (obj : gmap nat float) (M : list float) :
  length M = 16%nat ->
  Forall (fun x => float_fround x = x) M ->
  (forall i, (i < 16)%nat -> obj !! i = M !! i) ->
  _objectToMatrix obj = M.
Proof.
  intros Hlen Hexact Hobj. apply list_eq. intros i.
  destruct (objectToMatrix_entries obj) as [Hl Hi].
  destruct (decide (i < 16)%nat) as [Hlt|Hge].
  - specialize (Hi i Hlt). rewrite (Hobj i Hlt) in Hi.
    destruct (lookup_lt_is_Some_2 M i) as [x Hx]; [lia|].
    etrans; [exact Hi|]. rewrite Hx. f_equal.
    rewrite Forall_forall in Hexact. apply Hexact.
    by apply (list_elem_of_lookup_2 _ i).
  - etrans; [apply lookup_ge_None_2; lia|].
    symmetry. apply lookup_ge_None_2. lia.
Qed.

(** C2: a pose event enables the anchor, whatever its payload, and sets its
    rotation and its position from the matrix of the payload, whose entries
    are those of the payload as a [Float32Array] keeps them: the position is
    the origin transformed by the whole matrix, in binary64 arithmetic, not
    the translation entries as they are (a matrix with [w = 2] halves
    them).  For the identity matrix the position is the origin and the
    rotation is zero (a negative zero about [x]). *)
Theorem pose_update_transforms_the_origin this name (st : @Store float) a obj :
  wf st -> a ∈ anchorsOf this name st ->
  Math_atan2 lib 0 1 = 0 -> Math_asin lib (-0) = (-0) ->
  exists st' m m',
    dispatchEvent (ENG:=Babylon.engine lib)
                  (matrixEvent (uuid this) name) (DetailMatrix obj) st = Some st'
    /\ meshes st !! a = Some m
    /\ meshes st' !! a = Some m'
    /\ (forall i, (i < 16)%nat ->
          _objectToMatrix obj !! i
          = Some (match obj !! i with Some v => float_fround v | None => nan end))
    /\ mesh_enabled m' = true
    /\ mesh_position m'
       = Babylon.TransformCoordinates (mkVector3 0 0 0) (_objectToMatrix obj)
    /\ mesh_rotation m'
       = Babylon.toEulerAngles lib
           (Babylon.fromRotationMatrix
              (Babylon.getRotationMatrix (_objectToMatrix obj)))
    /\ unposed m' = unposed m
    /\ ((forall i, (i < 16)%nat -> obj !! i = Babylon.Matrix_Identity !! i) ->
        mesh_position m' = mkVector3 0 0 0
        /\ mesh_rotation m' = mkVector3 (-0) 0 0)
    /\ ((forall i, (i < 16)%nat -> obj !! i = Sample.halved !! i) ->
        mesh_position m' = mkVector3 1 2 3).
Proof.
  intros Hwf Ha Hatan Hasin.
  destruct (dispatch_matrix (ENG:=Babylon.engine lib) this name obj st Hwf)
    as (st' & M & Hrun & <- & [Hlen HMi] & _ & _ & _ & Hall & _).
  destruct (Hall a Ha) as (m & Hm & Hm').
  exists st', m, (posed (ENG:=Babylon.engine lib) (_objectToMatrix obj) m).
  do 3 (split; [done|]). split; [exact HMi|].
  do 4 (split; [reflexivity|]). split.
  - intros Hid.
    rewrite (objectToMatrix_exact obj Babylon.Matrix_Identity eq_refl); [|
      repeat constructor | done].
    split; [reflexivity|].
    change (Babylon.toEulerAngles lib (mkQuaternion 0 0 0 1) = mkVector3 (-0) 0 0).
    unfold Babylon.toEulerAngles. cbn [qx qy qz qw].
    change (mkVector3 (Math_asin lib (-0)) (Math_atan2 lib 0 1) (Math_atan2 lib 0 1)
            = mkVector3 (-0) 0 0).
    by rewrite Hatan, Hasin.
  - intros Hh.
    rewrite (objectToMatrix_exact obj Sample.halved eq_refl); [| repeat constructor | done].
    reflexivity.
Qed.


End BabylonFacts.

(** ** Marker dimensions, in numbers *)

(** C4: [addVideo] and [addImage] always, and [addModel] (default
    processing) when the asset loads and has its [__root__] node, are
    fulfilled and register a listener for the marker-dimensions event of the
    marker; an event [{width, height, dpi}] then overwrites the offset of the
    content: [y] is [((height / dpi) * 2.54 * 10) / 2]; [x] is the same
    formula on [width] for a model or a video, and on [height] for an image;
    [z] is kept; a further event overwrites the offset again.  For 800 x 600
    at 300 dpi the formula gives, in binary64 arithmetic, the doubles nearest
    to 25.4 for the height and to 33.8666... for the width. *)
Theorem marker_dimensions_recentre_the_content
    {num : Type} {NUM : JsNumber num} {ENG : Engine num}
    this w (r : @Request num) (st : @Store num) (width height dpi : num) :
  wf st -> default_processing r = true ->
  match r with
  | ReqModel args =>
      exists a, fetch w (url args) = inr a
                /\ Exists (fun x : AssetMesh => am_id x = "__root__")
                          (asset_meshes a)
  | _ => True
  end ->
  (exists st1 c st2 m1 m2,
     attach this w r st = (true, st1)
     /\ In (nftDataEvent (uuid this) (request_name r), onNFTData r c) (listeners st1)
     /\ dispatchEvent (nftDataEvent (uuid this) (request_name r))
                      (DetailNFT width height dpi) st1 = Some st2
     /\ meshes st1 !! c = Some m1
     /\ meshes st2 !! c = Some m2
     /\ vy (mesh_position m2) = nftOffset height dpi
     /\ vx (mesh_position m2)
        = match r with
          | ReqImage _ => nftOffset height dpi
          | _ => nftOffset width dpi
          end
     /\ vz (mesh_position m2) = vz (mesh_position m1)
     /\ forall width' height' dpi',
          exists st3 m3,
            dispatchEvent (nftDataEvent (uuid this) (request_name r))
                          (DetailNFT width' height' dpi') st2 = Some st3
            /\ meshes st3 !! c = Some m3
            /\ vy (mesh_position m3) = nftOffset height' dpi'
            /\ vx (mesh_position m3)
               = match r with
                 | ReqImage _ => nftOffset height' dpi'
                 | _ => nftOffset width' dpi'
                 end)
  /\ (nftOffset 600 300 = 0x1.9666666666666p+4
      /\ nftOffset 800 300 = 0x1.0eeeeeeeeeeefp+5)%float.
Proof.
  intros Hwf Hdef Hok. split.
  - destruct (attach_fulfilled this w r st Hdef Hok) as [st1 Hrun].
    destruct (attach_registers this w r st st1 Hwf Hdef Hrun)
      as (Hwf1 & c & a & _ & Hin & _).
    destruct (nftData_recentres this (request_name r) width height dpi st1 _ Hwf1 Hin)
      as (st2 & m & m2 & Hrun2 & Hwf2 & Hls2 & Hm & Hm2 & Hy & Hx & Hz).
    assert (Htarget : target (onNFTData r c) = c) by (by destruct r).
    rewrite Htarget in Hm, Hm2.
    exists st1, c, st2, m, m2. repeat (split; [done|]). split.
    { rewrite Hx. by destruct r. }
    split; [done|].
    intros width' height' dpi'. rewrite <- Hls2 in Hin.
    destruct (nftData_recentres this (request_name r) width' height' dpi' st2 _ Hwf2 Hin)
      as (st3 & m' & m3 & Hrun3 & _ & _ & _ & Hm3 & Hy3 & Hx3 & _).
    rewrite Htarget in Hm3.
    exists st3, m3. repeat (split; [done|]). rewrite Hx3. by destruct r.
  - split; vm_compute; reflexivity.
Qed.

(** * The statements on the sample inputs *)

Section Instances.

Import Sample.

#[local] Existing Instance engine.

Lemma videoScene_attached :
  attach (num:=float) this offline (ReqVideo video) initialStore = (true, videoScene).
Proof. reflexivity. Qed.

Lemma wf_videoScene : wf videoScene.
Proof.
  apply (attach_wf this offline (ReqVideo video) initialStore true);
    [apply wf_initial | reflexivity | apply videoScene_attached].
Qed.

Lemma flat16_identityPayload : flat16 identityPayload.
Proof.
  intros i Hi. do 16 (destruct i as [|i]; [vm_compute; eauto|]). lia.
Qed.

Lemma identityPayload_entries i :
  i < 16 -> identityPayload !! i = Babylon.Matrix_Identity !! i.
Proof.
  intros Hi. do 16 (destruct i as [|i]; [reflexivity|]). lia.
Qed.

(** Two attachments to one marker name: two anchors, a content under each. *)
Lemma shared_anchor_counterexample :
  let st := (attachAll (num:=float) this offline
                       [ReqVideo video; ReqImage image] initialStore).2 in
  anchorsOf this "marker-name" st = [0; 2]
  /\ parents st = [None; Some 0; None; Some 2]
  /\ ~ length (anchorsOf this "marker-name" st) <= 1.
Proof.
  vm_compute. split; [reflexivity|]. split; [reflexivity|]. lia.
Qed.

Lemma each_attachment_has_its_own_anchor_witness :
  let rs := [ReqVideo video; ReqModel model; ReqImage image] in
  let st' := (attachAll (num:=float) this online rs initialStore).2 in
  wf (num:=float) initialStore
  /\ Forall (fun r => default_processing r = true
                      /\ request_name r = "marker-name") rs
  /\ length (anchorsOf this "marker-name" st') = 0 + 3
  /\ NoDup (anchorsOf this "marker-name" st').
Proof.
  intros rs st'.
  assert (Hrs : Forall (fun r => default_processing r = true
                                 /\ request_name r = "marker-name") rs)
    by (repeat constructor).
  assert (Hk : (attachAll (num:=float) this online rs initialStore).1 = 3)
    by (vm_compute; reflexivity).
  destruct (proj2 (each_attachment_has_its_own_anchor (num:=float) this online
                     "marker-name")
              rs initialStore _ _ wf_initial Hrs (surjective_pairing _))
    as (H1 & H2 & _).
  rewrite Hk in H1.
  split; [apply wf_initial|]. split; [exact Hrs|]. split; [exact H1 | exact H2].
Defined.

Lemma wf_lostScene : wf lostScene.
Proof.
  assert (H : listeners lostScene = listeners videoScene
              /\ parents lostScene = parents videoScene)
    by (split; vm_compute; reflexivity).
  destruct H as [Hls Hps]. exact (wf_frame videoScene lostScene Hls Hps wf_videoScene).
Qed.

Lemma pose_update_transforms_the_origin_witness :
  wf lostScene /\ 0 ∈ anchorsOf this "marker-name" lostScene
  /\ Math_atan2 mathLib 0 1 = 0%float /\ Math_asin mathLib (-0)%float = (-0)%float
  /\ exists st' m m',
       dispatchEvent (matrixEvent (uuid this) "marker-name")
                     (DetailMatrix identityPayload) lostScene = Some st'
       /\ meshes lostScene !! 0 = Some m
       /\ mesh_enabled m = false
       /\ mesh_position m = mkVector3 1%float 2%float 3%float
       /\ meshes st' !! 0 = Some m'
       /\ mesh_enabled m' = true
       /\ mesh_position m' = mkVector3 0%float 0%float 0%float
       /\ mesh_rotation m' = mkVector3 (-0)%float 0%float 0%float.
Proof.
  assert (Ha : 0 ∈ anchorsOf this "marker-name" lostScene)
    by (apply elem_of_anchorsOn; vm_compute; auto).
  split; [apply wf_lostScene|]. split; [exact Ha|].
  split; [reflexivity|]. split; [reflexivity|].
  destruct (pose_update_transforms_the_origin mathLib this "marker-name" lostScene 0
              identityPayload wf_lostScene Ha eq_refl eq_refl)
    as (st' & m & m' & Hrun & Hm & Hm' & _ & Hen & _ & _ & _ & Hid & _).
  destruct (Hid identityPayload_entries) as [Hpos Hrot].
  exists st', m, m'. split; [exact Hrun|]. split; [exact Hm|].
  assert (Hm0 : meshes lostScene !! 0 = Some m) by exact Hm.
  vm_compute in Hm0. injection Hm0 as <-.
  split; [reflexivity|]. split; [reflexivity|]. by repeat split.
Defined.

Lemma tracking_lost_keeps_pose_witness :
  wf videoScene
  /\ In (matrixEvent (uuid this) "marker-name", OnMatrix 0) (listeners videoScene)
  /\ In (trackingLostEvent (uuid this) "marker-name", OnTrackingLost 0 false)
        (listeners videoScene)
  /\ exists st1 m1,
       dispatchEvent (trackingLostEvent (uuid this) "marker-name") DetailNone
                     videoScene = Some st1
       /\ meshes st1 !! 0 = Some m1
       /\ mesh_enabled m1 = false.
Proof.
  assert (H1 : In (matrixEvent (uuid this) "marker-name", OnMatrix 0)
                  (listeners videoScene)) by (vm_compute; auto).
  assert (H2 : In (trackingLostEvent (uuid this) "marker-name",
                   OnTrackingLost 0 false) (listeners videoScene))
    by (vm_compute; auto).
  split; [apply wf_videoScene|]. split; [exact H1|]. split; [exact H2|].
  destruct (tracking_lost_keeps_pose this "marker-name" videoScene 0 false
              DetailNone wf_videoScene H1 H2)
    as (st1 & m & m1 & Hrun & _ & Hm1 & Hen & _).
  by exists st1, m1.
Defined.




Lemma marker_dimensions_recentre_the_content_witness :
  let size := DetailNFT 800%float 600%float 300%float in
  let y := 0x1.9666666666666p+4%float in
  let x := 0x1.0eeeeeeeeeeefp+5%float in
  (exists st1 st2 m1 m2,
     attach this online (ReqModel model) initialStore = (true, st1)
     /\ dispatchEvent (nftDataEvent (uuid this) "marker-name") size st1 = Some st2
     /\ meshes st1 !! 0 = Some m1 /\ meshes st2 !! 0 = Some m2
     /\ mesh_position m1 = mkVector3 0%float 0%float 0%float
     /\ vx (mesh_position m2) = x /\ vy (mesh_position m2) = y)
  /\ (exists st1 st2 m1 m2,
        attach this offline (ReqVideo video) initialStore = (true, st1)
        /\ dispatchEvent (nftDataEvent (uuid this) "marker-name") size st1 = Some st2
        /\ meshes st1 !! 1 = Some m1 /\ meshes st2 !! 1 = Some m2
        /\ mesh_position m1 = mkVector3 0%float 0%float 0%float
        /\ vx (mesh_position m2) = x /\ vy (mesh_position m2) = y)
  /\ (exists st1 st2 m1 m2,
        attach this offline (ReqImage image) initialStore = (true, st1)
        /\ dispatchEvent (nftDataEvent (uuid this) "marker-name") size st1 = Some st2
        /\ meshes st1 !! 1 = Some m1 /\ meshes st2 !! 1 = Some m2
        /\ mesh_position m1 = mkVector3 0%float 0%float 0%float
        /\ vx (mesh_position m2) = y /\ vy (mesh_position m2) = y).
Proof.
  intros size y x.
  assert (Hroot : exists a, fetch online (url (model (num:=float))) = inr a
                            /\ Exists (fun x : AssetMesh => am_id x = "__root__")
                                      (asset_meshes a))
    by (exists glb; split; [reflexivity | by apply Exists_cons_hd]).
  destruct (marker_dimensions_recentre_the_content this online (ReqModel model)
              initialStore 800%float 600%float 300%float wf_initial eq_refl Hroot)
    as ((s1 & c1 & s2 & a1 & a2 & Hr1 & Hin1 & Hd1 & Ha1 & Ha2 & Hy1 & Hx1 & _) & [Ey Ex]).
  destruct (marker_dimensions_recentre_the_content this offline (ReqVideo video)
              initialStore 800%float 600%float 300%float wf_initial eq_refl I)
    as ((t1 & c2 & t2 & b1 & b2 & Hr2 & Hin2 & Hd2 & Hb1 & Hb2 & Hy2 & Hx2 & _) & _).
  destruct (marker_dimensions_recentre_the_content this offline (ReqImage image)
              initialStore 800%float 600%float 300%float wf_initial eq_refl I)
    as ((u1 & c3 & u2 & d1 & d2 & Hr3 & Hin3 & Hd3 & Hd1' & Hd2' & Hy3 & Hx3 & _) & _).
  assert (E1 : s1 = (attach this online (ReqModel model) initialStore).2)
    by (by rewrite Hr1).
  assert (E2 : t1 = (attach this offline (ReqVideo video) initialStore).2)
    by (by rewrite Hr2).
  assert (E3 : u1 = (attach this offline (ReqImage image) initialStore).2)
    by (by rewrite Hr3).
  assert (C1 : c1 = 0).
  { rewrite E1 in Hin1. vm_compute in Hin1.
    destruct Hin1 as [H|[H|[H|[]]]]; by injection H. }
  assert (C2 : c2 = 1).
  { rewrite E2 in Hin2. vm_compute in Hin2.
    destruct Hin2 as [H|[H|[H|[]]]]; by injection H. }
  assert (C3 : c3 = 1).
  { rewrite E3 in Hin3. vm_compute in Hin3.
    destruct Hin3 as [H|[H|[H|[]]]]; by injection H. }
  subst c1 c2 c3. rewrite Ey in Hy1, Hy2, Hy3, Hx3. rewrite Ex in Hx1, Hx2.
  split; [|split].
  - exists s1, s2, a1, a2. repeat (split; [done|]). split; [|done].
    rewrite E1 in Ha1. vm_compute in Ha1. by injection Ha1 as <-.
  - exists t1, t2, b1, b2. repeat (split; [done|]). split; [|done].
    rewrite E2 in Hb1. vm_compute in Hb1. by injection Hb1 as <-.
  - exists u1, u2, d1, d2. repeat (split; [done|]). split; [|done].
    rewrite E3 in Hd1'. vm_compute in Hd1'. by injection Hd1' as <-.
Defined.

(** A video whose source cannot be loaded: the promise is fulfilled all the
    same. *)
Lemma texture_failure_counterexample :
  textureLoads offline (src (missingVideo (num:=float))) = false
  /\ (forall e st',
        addVideo (num:=float) this offline missingVideo initialStore
        <> (Rejected e, st'))
  /\ (forall e st',
        addImage (num:=float) this offline missingVideo initialStore
        <> (Rejected e, st')).
Proof.
  split; [reflexivity|]. split; intros e st'; vm_compute; discriminate.
Qed.

Lemma load_failure_only_rejects_addModel_witness :
  fetch offline (url (missingModel (num:=float))) = inl (LoadError "404")
  /\ addModel (num:=float) this offline missingModel initialStore
     = (Rejected (LoadError "404"), mkStore [] [] [] [] [] ["missing.glb"]).
Proof.
  split; [reflexivity|].
  destruct (load_failure_only_rejects_addModel (num:=float) this offline initialStore)
    as (H & _).
  exact (H missingModel (LoadError "404") eq_refl).
Defined.

Lemma default_processing_needs_the_root_mesh_witness :
  let st := importAsset (num:=float) glb initialStore in
  let data := importData (num:=float) glb initialStore in
  Exists (fun r => meshIdIs st "__root__" r = true) (data_meshes data)
  /\ exists model st',
       _processModelData data (VString "marker-name") st = (Fulfilled model, st')
       /\ model_mesh model = 0.
Proof.
  intros st data.
  assert (Hex : Exists (fun r => meshIdIs st "__root__" r = true) (data_meshes data))
    by (apply Exists_cons_hd; reflexivity).
  split; [exact Hex|].
  destruct (default_processing_needs_the_root_mesh data (VString "marker-name") st)
    as (_ & H & _).
  destruct (H Hex) as (model & st' & Hrun & _ & _ & Hfind).
  exists model, st'. split; [exact Hrun|].
  vm_compute in Hfind. by injection Hfind.
Defined.

Lemma default_processing_never_sees_the_name_witness :
  let st' := (addModel (num:=float) this online model initialStore).2 in
  process (model (num:=float)) = None
  /\ addModel (num:=float) this online model initialStore
     = (Fulfilled (mkModel 0 (Some 0) None), st')
  /\ exists m ag,
       meshes st' !! 0 = Some m /\ mesh_name m = "undefined Mesh"
       /\ mesh_id m = "undefined Mesh"
       /\ animationGroups st' !! 0 = Some ag
       /\ ag_name ag = "undefined Animation".
Proof.
  intros st'.
  assert (Hrun : addModel (num:=float) this online model initialStore
                 = (Fulfilled (mkModel 0 (Some 0) None), st'))
    by (vm_compute; reflexivity).
  split; [reflexivity|]. split; [exact Hrun|].
  destruct (default_processing_never_sees_the_name this online model initialStore
              _ _ eq_refl Hrun) as (m & Hm & Hname & Hid & Hanim).
  destruct (Hanim 0 eq_refl) as (ag & Hag & Hagname).
  by exists m, ag.
Defined.

End Instances.

(** * Further properties of the renderer *)

Section Further.

Context {num : Type} {NUM : JsNumber num} {ENG : Engine num}.

Implicit Types st : @Store num.

(** ** What an event can and cannot change *)

Lemma effect_unposed l e (m : @Mesh num) : unposed (effect l e m) = unposed m.
Proof. destruct l, e; reflexivity. Qed.

Lemma effect_idempotent l e (m : @Mesh num) :
  effect l e (effect l e m) = effect l e m.
Proof. destruct l, e; reflexivity. Qed.

Lemma runListeners_updates ls t e st st' :
  runListeners ls t e st = Some st' ->
  (unposed <$> meshes st' = unposed <$> meshes st
   /\ materials st' = materials st /\ textures st' = textures st
   /\ animationGroups st' = animationGroups st
   /\ listeners st' = listeners st /\ requests st' = requests st)
  /\ (forall i, (forall l, In (t, l) ls -> target l <> i) ->
                meshes st' !! i = meshes st !! i).
Proof.
  revert st. induction ls as [|[t' l] ls IH]; intros st; simpl.
  - intros [= <-]. split; done.
  - destruct (String.eqb_spec t' t) as [->|Hne].
    + destruct (handle l e st) as [st1|] eqn:Hh; simpl; [|discriminate].
      intros Hrun. apply IH in Hrun as ((H1 & H2 & H3 & H4 & H5 & H6) & Hframe).
      apply handle_updates in Hh as ->. simpl in *.
      split.
      * repeat (split; [done|]). split; [|done].
        rewrite H1. apply fmap_alter_same. intros m. apply effect_unposed.
      * intros i Hi. rewrite Hframe by (intros l' Hl'; apply Hi; by right).
        apply list_lookup_alter_ne. apply Hi. by left.
    + intros Hrun. apply IH in Hrun as (Hsame & Hframe).
      split; [done|].
      intros i Hi. apply Hframe. intros l' Hl'. apply Hi. by right.
Qed.

Lemma prefix_cons_inv a s t :
  String.prefix (String a s) t = true ->
  exists t', t = String a t' /\ String.prefix s t' = true.
Proof.
  destruct t as [|b t]; simpl; [discriminate|].
  destruct (ascii_dec a b) as [->|]; [eauto | discriminate].
Qed.

Lemma kind_prefixes_exclusive k1 k2 t :
  String.prefix (kindPrefix k1) t = true ->
  String.prefix (kindPrefix k2) t = true -> k1 = k2.
Proof.
  destruct k1, k2; try done; unfold kindPrefix; intros H1 H2; exfalso;
    do 4 (apply prefix_cons_inv in H1 as (? & -> & H1);
          apply prefix_cons_inv in H2 as (? & E & H2);
          try discriminate E; injection E as <-).
Qed.

Lemma kind_of_type t :
  exists k, forall k', String.prefix (kindPrefix k') t = true -> k' = k.
Proof.
  destruct (String.prefix (kindPrefix KMatrix) t) eqn:H1;
    [exists KMatrix; intros k' Hk'; by apply (kind_prefixes_exclusive _ _ t)|].
  destruct (String.prefix (kindPrefix KTrackingLost) t) eqn:H2;
    [exists KTrackingLost; intros k' Hk'; by apply (kind_prefixes_exclusive _ _ t)|].
  exists KNFTData. intros [] Hk'; congruence.
Qed.

(** On a well-formed store every event is delivered, whatever its type and
    its payload (an unreadable payload makes its listeners throw or store
    NaN, no more). *)
Lemma dispatch_total type e st :
  wf st -> exists st', dispatchEvent type e st = Some st' /\ wf st'.
Proof.
  intros Hwf. destruct (kind_of_type type) as [k Hk].
  destruct (dispatch_spec k type e st Hwf Hk) as (st' & Hrun & _ & _ & Hwf' & _).
  eauto.
Qed.

(** X1: on a well-formed store every event is delivered, whatever its type
    and its payload, and its listeners change nothing but the enabled flag,
    the rotation and the position of nodes: no node, material, texture,
    animation group or listener is added, removed or otherwise altered. *)
Theorem events_only_change_poses type e st :
  wf st ->
  exists st',
    dispatchEvent type e st = Some st'
    /\ unposed <$> meshes st' = unposed <$> meshes st
    /\ materials st' = materials st /\ textures st' = textures st
    /\ animationGroups st' = animationGroups st
    /\ listeners st' = listeners st /\ requests st' = requests st.
Proof.
  intros Hwf. destruct (dispatch_total type e st Hwf) as (st' & Hrun & _).
  exists st'. split; [done|]. by apply runListeners_updates in Hrun as [H _].
Qed.

Lemma runListeners_nobody ls t e st :
  (forall l, ~ In (t, l) ls) -> runListeners ls t e st = Some st.
Proof.
  induction ls as [|[t' l] ls IH]; intros Hno; simpl; [done|].
  destruct (String.eqb_spec t' t) as [->|Hne].
  - exfalso. apply (Hno l). by left.
  - apply IH. intros l' Hl'. apply (Hno l'). by right.
Qed.

(** X2: an event reaches only the nodes of the listeners registered under
    exactly its type: every other node is as before, and an event nobody
    listens to leaves the store as it is. *)
Theorem events_only_reach_their_listeners type e st :
  (forall st' i,
     dispatchEvent type e st = Some st' ->
     (forall l, In (type, l) (listeners st) -> target l <> i) ->
     meshes st' !! i = meshes st !! i)
  /\ ((forall l, ~ In (type, l) (listeners st)) ->
      dispatchEvent type e st = Some st).
Proof.
  split.
  - intros st' i Hrun Hi. apply runListeners_updates in Hrun as (_ & Hframe).
    by apply Hframe.
  - apply runListeners_nobody.
Qed.

(** ** Events compose *)

(** X3: delivering the same event a second time changes nothing: the listeners
    store values that depend on the payload only. *)
Theorem events_are_idempotent type e st st' :
  wf st ->
  dispatchEvent type e st = Some st' ->
  dispatchEvent type e st' = Some st'.
Proof.
  intros Hwf Hrun. destruct (kind_of_type type) as [k Hk].
  destruct (dispatch_spec k type e st Hwf Hk)
    as (st1 & Hrun1 & Hls & _ & Hwf' & Hframe & Hset).
  rewrite Hrun in Hrun1. injection Hrun1 as <-.
  destruct (dispatch_spec k type e st' Hwf' Hk)
    as (st2 & Hrun2 & _ & _ & _ & Hframe2 & Hset2).
  rewrite Hrun2. f_equal.
  pose proof (proj1 (runListeners_updates _ _ _ _ _ Hrun2))
    as (Hu & H2 & H3 & H4 & H5 & H6).
  apply Store_ext; try done.
  apply list_eq. intros i.
  destruct (decide (i ∈ target <$> handlers type (listeners st))) as [Hin|Hout].
  - apply list_elem_of_fmap in Hin as (l & -> & Hl). apply elem_of_handlers in Hl.
    rewrite (Hset2 l) by (by rewrite ?Hls).
    rewrite (Hset l Hl).
    destruct (meshes st !! target l) as [m|]; simpl; [|done].
    by rewrite (effect_idempotent l e m).
  - apply Hframe2. intros l Hl <-. apply Hout.
    apply list_elem_of_fmap. exists l. split; [done|].
    apply elem_of_handlers. by rewrite <- Hls.
Qed.

(** ** Event names *)

Lemma append_assoc (a b c : string) : ((a ++ b) ++ c = a ++ (b ++ c))%string.
Proof.
  induction a as [|x a IH]; [done|].
  change (String x ((a ++ b) ++ c) = String x (a ++ (b ++ c))). by f_equal.
Qed.

Lemma append_inj_l (a b c : string) : (a ++ b = a ++ c)%string -> b = c.
Proof.
  induction a as [|x a IH]; [done|].
  change (String x (a ++ b) = String x (a ++ c) -> b = c).
  intros [= H]. by apply IH.
Qed.

Lemma dash_moves (p u s n : string) :
  (p ++ (u ++ "-" ++ s) ++ "-" ++ n = p ++ u ++ "-" ++ (s ++ "-" ++ n))%string.
Proof. by rewrite (append_assoc u). Qed.

(** X4: within one session the event names tell the markers apart; but the
    session id and the marker name are only joined by a dash, so a dash can
    move from one to the other: a renderer for session [u] listens, for its
    marker [s-n], to the very events of marker [n] in session [u-s]. *)
Theorem event_names_and_dashes (u s n n' : string) :
  (matrixEvent u n = matrixEvent u n' -> n = n')
  /\ (trackingLostEvent u n = trackingLostEvent u n' -> n = n')
  /\ (nftDataEvent u n = nftDataEvent u n' -> n = n')
  /\ matrixEvent (u ++ "-" ++ s) n = matrixEvent u (s ++ "-" ++ n)
  /\ trackingLostEvent (u ++ "-" ++ s) n = trackingLostEvent u (s ++ "-" ++ n)
  /\ nftDataEvent (u ++ "-" ++ s) n = nftDataEvent u (s ++ "-" ++ n).
Proof.
  unfold matrixEvent, trackingLostEvent, nftDataEvent.
  split; [|split; [|split]].
  - intros H. by do 3 apply append_inj_l in H.
  - intros H. by do 3 apply append_inj_l in H.
  - intros H. by do 3 apply append_inj_l in H.
  - split; [|split]; apply dash_moves.
Qed.

Lemma NoDup_fmap_In {A B} (f : A -> B) (l : list A) (x y : A) :
  NoDup (f <$> l) -> x ∈ l -> y ∈ l -> f x = f y -> x = y.
Proof.
  induction l as [|a l IH]; intros Hnd Hx Hy Hf; [by apply elem_of_nil in Hx|].
  rewrite fmap_cons in Hnd. apply NoDup_cons in Hnd as [Hfresh Hnd].
  apply elem_of_cons in Hx as [->|Hx]; apply elem_of_cons in Hy as [->|Hy].
  - done.
  - exfalso. apply Hfresh. rewrite Hf. by apply list_elem_of_fmap_2.
  - exfalso. apply Hfresh. rewrite <- Hf. by apply list_elem_of_fmap_2.
  - by apply IH.
Qed.

(** X5: a pose event for one marker leaves the anchors of the other markers of
    the session where they are. *)
Theorem pose_events_do_not_move_other_markers this name name' e st st' a :
  wf st ->
  name <> name' ->
  a ∈ anchorsOf this name st ->
  dispatchEvent (matrixEvent (uuid this) name') e st = Some st' ->
  meshes st' !! a = meshes st !! a.
Proof.
  intros Hwf Hne Ha Hrun.
  apply runListeners_updates in Hrun as (_ & Hframe). apply Hframe.
  intros l Hl Htarget. apply elem_of_anchorsOn in Ha.
  assert (kind l = KMatrix) as Hk.
  { apply (registered_kind st _ l _ Hwf Hl). intros k'. apply prefix_matrix_kind. }
  destruct l; try discriminate. simpl in Htarget. subst.
  apply Hne.
  assert (Heq : (matrixEvent (uuid this) name, OnMatrix a)
                = (matrixEvent (uuid this) name', OnMatrix a)).
  { apply (NoDup_fmap_In _ _ _ _ (wf_key st Hwf)); [| |done];
      by apply list_elem_of_In. }
  injection Heq as Heq. unfold matrixEvent in Heq.
  by do 3 apply append_inj_l in Heq.
Qed.

(** ** [_objectToMatrix] *)

(** X6: [_objectToMatrix] always yields a matrix: its sixteen entries are the
    entries [0] to [15] of the payload as a [Float32Array] keeps them, NaN
    where the payload has none; whatever else the payload carries is
    ignored.  In binary64: 0.1 is kept as 0.100000001490116..., 1e39 as
    [Infinity]. *)
Theorem objectToMatrix_reads_sixteen_entries :
  (forall (obj : gmap nat num),
     length (_objectToMatrix obj) = 16
     /\ forall i, i < 16 ->
          _objectToMatrix obj !! i
          = Some (match obj !! i with Some v => fround v | None => NaN end))
  /\ (forall (obj obj' : gmap nat num),
        (forall i, i < 16 -> obj !! i = obj' !! i) ->
        _objectToMatrix obj = _objectToMatrix obj')
  /\ (float_fround 0x1.999999999999ap-4 = 0x1.99999ap-4
      /\ float_fround 0x1.78287f49c4a1dp+129 = infinity
      /\ (_objectToMatrix (num:=float) ∅ !! 15%nat = Some nan))%float.
Proof.
  split; [apply objectToMatrix_entries|]. split.
  - intros obj obj' Hsame. apply list_eq. intros i.
    destruct (objectToMatrix_entries obj) as [Hl Hi].
    destruct (objectToMatrix_entries obj') as [Hl' Hi'].
    destruct (decide (i < 16)) as [Hlt|Hge].
    + etrans; [apply (Hi i Hlt)|]. rewrite (Hsame i Hlt). symmetry. apply (Hi' i Hlt).
    + etrans; [apply lookup_ge_None_2; lia|].
      symmetry. apply lookup_ge_None_2. lia.
  - repeat split; vm_compute; reflexivity.
Qed.

(** X7: the default processing stops every animation group of the imported
    data, playing or not, and no other group.  It renames one group at most:
    the first of the data when that is called [All Animations] or
    [Animation], which is then the result's [animation]; in every other case
    the result has no [animation] and lists all the groups of the data under
    [animations]. *)
Theorem default_processing_stops_the_animations data name st model st' :
  _processModelData data name st = (Fulfilled model, st') ->
  (forall g ag,
     animationGroups st !! g = Some ag ->
     exists ag',
       animationGroups st' !! g = Some ag'
       /\ ag_playing ag' = (if decide (g ∈ data_animationGroups data)
                            then false else ag_playing ag)
       /\ ag_name ag' = (if decide (model_animation model = Some g)
                         then (ToString name ++ " Animation")%string
                         else ag_name ag))
  /\ (forall g, animationGroups st !! g = None -> animationGroups st' !! g = None)
  /\ match head (data_animationGroups data) with
     | Some firstAnim =>
         if animationNameIs st "All Animations" firstAnim
            || animationNameIs st "Animation" firstAnim
         then model_animation model = Some firstAnim /\ model_animations model = None
         else model_animation model = None
              /\ model_animations model = Some (data_animationGroups data)
     | None => model_animation model = None
               /\ model_animations model = Some (data_animationGroups data)
     end.
Proof.
  intros Hrun.
  destruct (processModelData_run _ _ _ _ _ Hrun)
    as (_ & _ & _ & _ & _ & _ & _ & Hag & _ & Hcls).
  split_and!; [| |exact Hcls].
  - intros g ag Hg. rewrite Hag, Hg. eexists. split; [reflexivity|].
    by repeat case_decide.
  - intros g Hg. by rewrite Hag, Hg.
Qed.

(** X8: the default processing disposes of the first node of the imported
    data whose id is [Default Light] and, with it, of every node under it:
    each of them leaves the scene and loses its parent.  The light is never
    the node the processing returns, which is renamed; every other node, in
    the data or not, is left as it was, and so are the materials, textures
    and listeners. *)
Theorem default_processing_disposes_the_first_default_light
    data name st model st' :
  _processModelData data name st = (Fulfilled model, st') ->
  let light := List.find (meshIdIs st "Default Light") (data_meshes data) in
  let s := (ToString name ++ " Mesh")%string in
  let gone i := match light with
                | Some l => isUnder (length (meshes st)) st l i
                | None => false
                end in
  light <> Some (model_mesh model)
  /\ (forall l, light = Some l ->
        gone l = true
        /\ forall i m, meshes st !! i = Some m -> mesh_parent m = Some l ->
                       gone i = true)
  /\ (forall i m,
        meshes st !! i = Some m ->
        meshes st' !! i
        = Some ((if gone i then fun x => with_parent None (with_disposed true x)
                 else fun x => x)
                  ((if decide (i = model_mesh model)
                    then fun x => with_id s (with_name s x) else fun x => x) m)))
  /\ length (meshes st') = length (meshes st)
  /\ is_Some (meshes st !! model_mesh model)
  /\ materials st' = materials st /\ textures st' = textures st
  /\ listeners st' = listeners st.
Proof.
  intros Hrun light s gone.
  destruct (processModelData_run _ _ _ _ _ Hrun)
    as (Hfind & Hnot & Hms & Hmat & Htex & Hls & _).
  fold light in Hnot, Hms. fold s in Hms.
  apply find_some in Hfind as [_ Hroot].
  apply meshIdIs_lookup in Hroot as (m0 & Hm0 & _).
  set (renamed := updMesh (model_mesh model) (fun m => with_id s (with_name s m)) st)
    in Hms.
  assert (Hren : forall i,
             meshes renamed !! i
             = (if decide (i = model_mesh model)
                then fun x => with_id s (with_name s x) else fun x => x)
               <$> meshes st !! i).
  { intros i. unfold renamed, updMesh. simpl. case_decide as Hi.
    - subst i. by rewrite list_lookup_alter_eq.
    - rewrite list_lookup_alter_ne by congruence. by destruct (meshes st !! i). }
  assert (Hlen : length (meshes renamed) = length (meshes st)).
  { unfold renamed, updMesh. simpl. by rewrite length_alter. }
  split; [done|]. split.
  { intros l Hl. unfold gone. rewrite Hl. split.
    - destruct (length (meshes st)); simpl; by rewrite bool_decide_eq_true_2.
    - intros i m Hi Hp. pose proof (lookup_lt_Some _ _ _ Hi) as Hlt.
      destruct (length (meshes st)) as [|n]; [lia|]. simpl.
      rewrite Hi, Hp. destruct n; simpl; rewrite (bool_decide_eq_true_2 (l = l)) by done;
        by rewrite orb_true_r. }
  split.
  { intros i m Hi. rewrite Hms. unfold gone. destruct light as [l|].
    - rewrite dispose_lookup, Hren, Hi, Hlen. simpl.
      unfold renamed. rewrite isUnder_updMesh by done.
      by destruct (isUnder _ _ _ _).
    - by rewrite Hren, Hi. }
  split.
  { rewrite Hms. destruct light as [l|]; [|done].
    unfold dispose. simpl. by rewrite length_imap. }
  split; [by exists m0|]. done.
Qed.

(** ** [addModel] *)

(** X9: a processing function given by the caller replaces the default one, and
    is called with the imported data alone.  When it throws, [addModel]
    rejects with its error and stops there: no anchor, no listener.  When it
    returns a model whose mesh is a node of the scene, that node is put under
    a new anchor named after the marker and takes the scale of the call (15
    when left out) on its three axes, whatever its parent and scaling were;
    the other nodes stay as the function left them, and the three listeners
    of the call come after those already registered. *)
Theorem custom_processing_decides_the_content this w args p st a :
  process args = Some p ->
  fetch w (url args) = inr a ->
  let st0 := set_requests (fun l => l ++ [url args]) st in
  let name := model_name args in
  (forall e st2,
     p (importData a st0) (importAsset a st0) = (Rejected e, st2) ->
     addModel this w args st = (Rejected e, st2))
  /\ (forall model st2 m,
        p (importData a st0) (importAsset a st0) = (Fulfilled model, st2) ->
        meshes st2 !! model_mesh model = Some m ->
        let root := length (meshes st2) in
        exists st',
          addModel this w args st = (Fulfilled model, st')
          /\ meshes st' !! model_mesh model
             = Some (with_scaling (setAll (default (num_of_int 15) (model_scale args)))
                                  (with_parent (Some root) m))
          /\ meshes st' !! root = Some (newMeshValue (name ++ " Root") None)
          /\ (forall i, i <> model_mesh model -> i < root ->
                        meshes st' !! i = meshes st2 !! i)
          /\ listeners st' =
               listeners st2 ++
                 [ (nftDataEvent (uuid this) name, OnNFTData_model (model_mesh model));
                   (matrixEvent (uuid this) name, OnMatrix root);
                   (trackingLostEvent (uuid this) name,
                    OnTrackingLost root (default false (model_visibility args))) ]).
Proof.
  intros Hp Hf st0 name. pose proof (addModel_run this w args st a Hf) as Hrun.
  rewrite Hp in Hrun. simpl in Hrun. fold st0 in Hrun. split.
  - intros e st2 Hp2. by rewrite Hp2 in Hrun.
  - intros model st2 m Hp2 Hm root. rewrite Hp2 in Hrun.
    pose proof (lookup_lt_Some _ _ _ Hm) as Hlt.
    eexists. split; [exact Hrun|]. simpl. split_and!; [| | |done].
    + rewrite list_lookup_alter_eq, lookup_app_l by done. by rewrite Hm.
    + rewrite list_lookup_alter_ne by (unfold root; lia). apply lookup_snoc.
    + intros i Hi Hlti. rewrite list_lookup_alter_ne by done.
      by apply lookup_app_l.
Qed.

(** X10: a fulfilled [addModel] assigns [useLogarithmicDepth = true] to every
    material of the scene, not only to those of the model, and the engine's
    setter keeps the value only on a device that can write the fragment
    depth: afterwards the flag of every material is that capability.  With
    the default processing, the materials that were there before the call
    keep their name, colour and texture. *)
Theorem addModel_flags_every_material this w args st model st' :
  addModel this w args st = (Fulfilled model, st') ->
  Forall (fun m => useLogarithmicDepth m = fragmentDepthSupported w) (materials st')
  /\ (process args = None ->
      forall i m,
        materials st !! i = Some m ->
        materials st' !! i
        = Some (with_useLogarithmicDepth (fragmentDepthSupported w) m)).
Proof.
  intros Hadd. destruct (fetch w (url args)) as [e|a] eqn:Hf.
  { by rewrite (addModel_fetch_failed _ _ _ _ e Hf) in Hadd. }
  rewrite (addModel_run this w args st a Hf) in Hadd.
  destruct (default _ (process args) _ _) as [[model2|e] st2] eqn:Hrun;
    [|discriminate].
  injection Hadd as <- <-. simpl. split.
  - apply Forall_fmap, Forall_true. done.
  - intros Hp i m Hm. rewrite Hp in Hrun. simpl in Hrun.
    destruct (processModelData_run _ _ _ _ _ Hrun)
      as (_ & _ & _ & Hmat & _).
    rewrite list_lookup_fmap, Hmat. simpl.
    by rewrite (lookup_app_l_Some _ _ _ _ Hm).
Qed.

(** X11: attaching content to a well-formed scene never takes anything away:
    whether the call is fulfilled or rejected, every node, texture and
    animation group of the scene is afterwards as it was before, and so is
    every listener; the materials too, but for the depth flag, which a
    fulfilled [addModel] sets on all of them to what the device supports.  A
    fulfilled call registers three listeners, a rejected one none. *)
Theorem attaching_keeps_what_is_there this w r st ok st' :
  wf st ->
  default_processing r = true ->
  attach this w r st = (ok, st') ->
  (forall i m, meshes st !! i = Some m -> meshes st' !! i = Some m)
  /\ (forall i t, textures st !! i = Some t -> textures st' !! i = Some t)
  /\ (forall i g, animationGroups st !! i = Some g ->
                  animationGroups st' !! i = Some g)
  /\ (forall i m,
        materials st !! i = Some m ->
        materials st' !! i
        = Some (if match r with ReqModel _ => ok | _ => false end
                then with_useLogarithmicDepth (fragmentDepthSupported w) m
                else m))
  /\ exists new, listeners st' = listeners st ++ new
                 /\ length new = if ok then 3 else 0.
Proof.
  intros Hwf Hdef Hrun.
  destruct r as [args|args|args]; unfold attach in Hrun; simpl in Hdef.
  - destruct (process args) eqn:Hp; [discriminate|].
    destruct (fetch w (url args)) as [e|a] eqn:Hf.
    { rewrite (addModel_fetch_failed _ _ _ _ e Hf) in Hrun.
      injection Hrun as <- <-. simpl. split_and!; try done.
      exists []. by rewrite app_nil_r. }
    rewrite (addModel_run this w args st a Hf), Hp in Hrun. simpl default in Hrun.
    set (st0 := set_requests (fun l => l ++ [url args]) st) in Hrun.
    destruct (_processModelData _ _ _) as [[model|e] st2] eqn:Hproc.
    + injection Hrun as <- <-.
      destruct (processModelData_run _ _ _ _ _ Hproc)
        as (Hfind & _ & Hms & Hmat & Htex & Hls & _ & Hag & Hhead & _).
      set (light := List.find (meshIdIs (importAsset a st0) "Default Light")
                              (data_meshes (importData a st0))) in Hms.
      assert (Hc : length (meshes st) <= model_mesh model).
      { apply find_some in Hfind as [Hin _].
        apply list_elem_of_In, elem_of_seq in Hin. simpl in Hin. lia. }
      assert (Hlight : forall l, light = Some l -> length (meshes st) <= l).
      { intros l Hl. apply find_some in Hl as [Hin _].
        apply list_elem_of_In, elem_of_seq in Hin. simpl in Hin. lia. }
      assert (Hold : forall i m, meshes st !! i = Some m -> meshes st2 !! i = Some m).
      { intros i m Hm. pose proof (lookup_lt_Some _ _ _ Hm) as Hlt.
        rewrite Hms.
        assert (Hren : forall f, meshes (updMesh (model_mesh model) f
                                           (importAsset a st0)) !! i = Some m).
        { intros f. unfold updMesh. simpl. rewrite list_lookup_alter_ne by lia.
          by apply lookup_app_l_Some. }
        destruct light as [l|]; [|apply Hren].
        specialize (Hlight l eq_refl).
        rewrite dispose_lookup, Hren. simpl.
        rewrite isUnder_updMesh by done.
        rewrite (isUnder_outside _ _ (length (meshes st))); [done| |done|done].
        intros j p Hj Hjp.
        destruct (importAsset_parents a st0) as (N & HN & _).
        rewrite HN in Hjp. change (parents st0) with (parents st) in Hjp.
        assert (Hlp : length (parents st) = length (meshes st)).
        { unfold parents. by rewrite length_fmap. }
        rewrite lookup_app_l in Hjp by lia.
        rewrite <- Hlp. apply (wf_closed st j p Hwf); [lia|done]. }
      simpl. split_and!.
      * intros i m Hm. pose proof (lookup_lt_Some _ _ _ Hm) as Hlt.
        rewrite list_lookup_alter_ne by lia.
        apply lookup_app_l_Some. by apply Hold.
      * intros i t Ht. rewrite Htex. by apply lookup_app_l_Some.
      * intros i g Hg. pose proof (lookup_lt_Some _ _ _ Hg) as Hlt.
        assert (Hnew : ~ i ∈ data_animationGroups (importData a st0)).
        { simpl. rewrite elem_of_seq. lia. }
        rewrite Hag. simpl animationGroups.
        rewrite (lookup_app_l_Some _ _ _ _ Hg).
        rewrite (decide_False (P := i ∈ _)) by done.
        rewrite decide_False; [done|].
        intros Hi. apply Hhead in Hi. apply Hnew.
        apply list_elem_of_In. destruct (data_animationGroups _); [done|].
        injection Hi as ->. by left.
      * intros i m Hm. rewrite list_lookup_fmap, Hmat. simpl.
        by rewrite (lookup_app_l_Some _ _ _ _ Hm).
      * eexists. split; [rewrite Hls; reflexivity | reflexivity].
    + injection Hrun as <- <-. apply processModelData_rejected in Hproc as ->.
      simpl. split_and!; try (intros; by apply lookup_app_l_Some); try done.
      exists []. by rewrite app_nil_r.
  - rewrite addVideo_spec in Hrun. injection Hrun as <- <-. simpl.
    split_and!; try (intros; by apply lookup_app_l_Some); try done.
    by eexists.
  - rewrite addImage_spec in Hrun. injection Hrun as <- <-. simpl.
    split_and!; try (intros; by apply lookup_app_l_Some); try done.
    by eexists.
Qed.

(** X12: the listeners only accumulate: a sequence of calls registers three
    listeners for each fulfilled call, after the listeners that were there,
    and removes none (the renderer has no way to detach content). *)
Theorem listeners_only_accumulate this w rs st k st' :
  Forall (fun r => default_processing r = true) rs ->
  attachAll this w rs st = (k, st') ->
  exists new, listeners st' = listeners st ++ new /\ length new = 3 * k.
Proof.
  revert st k st'. induction rs as [|r rs IH]; intros st k st' Hrs Hrun.
  - injection Hrun as <- <-. exists []. by rewrite app_nil_r.
  - apply Forall_cons in Hrs as [Hdef Hrs]. simpl in Hrun.
    destruct (attach this w r st) as [ok st1] eqn:Hr.
    destruct (attachAll this w rs st1) as [k1 st2] eqn:Hrest.
    injection Hrun as <- <-.
    destruct (IH _ _ _ Hrs Hrest) as (new & Hnew & Hlen).
    destruct (attach_listeners _ _ _ _ _ _ Hdef Hr) as (new1 & Hls & Hlen1).
    exists (new1 ++ new). rewrite Hnew, Hls, <- app_assoc. split; [reflexivity|].
    rewrite length_app. destruct ok; lia.
Qed.

(** ** The order of events *)

(** The pose listener goes through exactly when its root has no parent. *)
Lemma pose_closed root obj st :
  pose root obj (setEnabled root true st)
  = if bool_decide (parents st !! root = Some None)
    then Some (updMesh root (posed (_objectToMatrix obj)) st)
    else None.
Proof.
  case_bool_decide as Hp.
  - apply (handle_effect (OnMatrix root) (DetailMatrix obj) st). by intros _.
  - unfold pose, setAbsolutePosition, setEnabled. simpl.
    rewrite !list_lookup_alter_eq.
    destruct (meshes st !! root) as [m|] eqn:Hm; simpl; [|done].
    destruct (mesh_parent m) eqn:Hpar; [done|].
    exfalso. apply Hp. apply parents_lookup. eauto.
Qed.

(** Whether a listener runs, and what it does, depends on the store only
    through the parent links. *)
Lemma handle_transfer l e st st' :
  parents st' = parents st ->
  match handle l e st with
  | Some s => s = updMesh (target l) (effect l e) st
              /\ handle l e st' = Some (updMesh (target l) (effect l e) st')
  | None => handle l e st' = None
  end.
Proof.
  intros Hps.
  destruct l as [root|root v|c|c|c];
    try (rewrite !handle_effect by discriminate; done).
  destruct e as [obj| |]; simpl.
  - rewrite !pose_closed, Hps. by case_bool_decide.
  - rewrite !pose_closed, Hps. by case_bool_decide.
  - done.
Qed.

Lemma updMesh_commute i j f g st :
  i <> j -> updMesh i f (updMesh j g st) = updMesh j g (updMesh i f st).
Proof.
  intros Hne. apply Store_ext; try done. simpl.
  by apply list_alter_alter_ne.
Qed.

Lemma runListeners_updMesh ls t e st i f :
  (forall l, In (t, l) ls -> target l <> i) ->
  (forall m, mesh_parent (f m) = mesh_parent m) ->
  runListeners ls t e (updMesh i f st) = updMesh i f <$> runListeners ls t e st.
Proof.
  intros Hi Hf. revert st. induction ls as [|[t' l] ls IH]; intros st; simpl; [done|].
  destruct (String.eqb_spec t' t) as [->|Hne].
  - pose proof (handle_transfer l e st (updMesh i f st) (parents_updMesh i f st Hf)) as H.
    destruct (handle l e st) as [s|].
    + destruct H as (-> & ->). simpl.
      rewrite <- (updMesh_commute i) by (apply not_eq_sym, Hi; by left).
      apply IH. intros l' Hl'. apply Hi. by right.
    + by rewrite H.
  - apply IH. intros l' Hl'. apply Hi. by right.
Qed.

Lemma runListeners_commute ls1 ls2 t1 e1 t2 e2 st :
  (forall l1 l2, In (t1, l1) ls1 -> In (t2, l2) ls2 -> target l1 <> target l2) ->
  runListeners ls1 t1 e1 st ≫= runListeners ls2 t2 e2
  = runListeners ls2 t2 e2 st ≫= runListeners ls1 t1 e1.
Proof.
  revert st. induction ls1 as [|[t l] ls1 IH]; intros st Hdis.
  - simpl. by destruct (runListeners ls2 t2 e2 st).
  - assert (Hdis' : forall l1 l2, In (t1, l1) ls1 -> In (t2, l2) ls2 ->
                                  target l1 <> target l2)
      by (intros l1 l2 H1; apply Hdis; by right).
    simpl. destruct (String.eqb_spec t t1) as [->|Hne].
    + destruct (handle l e1 st) as [s|] eqn:Hh.
      * simpl. rewrite (IH s Hdis').
        pose proof (handle_transfer l e1 st) as Htr. rewrite Hh in Htr.
        destruct (Htr st eq_refl) as (-> & _).
        rewrite runListeners_updMesh.
        -- destruct (runListeners ls2 t2 e2 st) as [s2|] eqn:H2; [|done]. simpl.
           apply runListeners_frame in H2 as [_ Hps].
           by destruct (Htr s2 Hps) as (_ & ->).
        -- intros l2 Hl2. apply not_eq_sym, Hdis; [by left | done].
        -- intros m. apply effect_parent.
      * simpl. destruct (runListeners ls2 t2 e2 st) as [s2|] eqn:H2; [|done]. simpl.
        apply runListeners_frame in H2 as [_ Hps].
        pose proof (handle_transfer l e1 st s2 Hps) as Htr. rewrite Hh in Htr.
        by rewrite Htr.
    + rewrite (IH st Hdis').
      by destruct (runListeners ls2 t2 e2 st).
Qed.

Lemma dispatch_twice t1 e1 t2 e2 st :
  dispatchEvent t1 e1 st ≫= dispatchEvent t2 e2
  = runListeners (listeners st) t1 e1 st ≫= runListeners (listeners st) t2 e2.
Proof.
  unfold dispatchEvent.
  destruct (runListeners (listeners st) t1 e1 st) as [s|] eqn:H; [|done]. simpl.
  by apply runListeners_frame in H as [-> _].
Qed.

(** X13: on a well-formed store two events whose listeners write to
    different nodes can arrive in either order, whatever their payloads:
    both orders are delivered and leave the same store. *)
Theorem events_on_different_nodes_commute t1 e1 t2 e2 st :
  wf st ->
  (forall l1 l2, In (t1, l1) (listeners st) -> In (t2, l2) (listeners st) ->
                 target l1 <> target l2) ->
  exists st',
    dispatchEvent t1 e1 st ≫= dispatchEvent t2 e2 = Some st'
    /\ dispatchEvent t2 e2 st ≫= dispatchEvent t1 e1 = Some st'.
Proof.
  intros Hwf Hdis.
  destruct (dispatch_total t1 e1 st Hwf) as (s1 & H1 & Hwf1).
  destruct (dispatch_total t2 e2 s1 Hwf1) as (s12 & H12 & _).
  exists s12.
  assert (Hfirst : dispatchEvent t1 e1 st ≫= dispatchEvent t2 e2 = Some s12)
    by (by rewrite H1).
  split; [done|]. rewrite <- Hfirst, !dispatch_twice.
  symmetry. by apply runListeners_commute.
Qed.

(** ** The stores a renderer can reach *)

Lemma built_paired this w st :
  built this w st ->
  forall t l, In (t, l) (listeners st) -> kind l = KNFTData ->
    exists name a v,
      t = nftDataEvent (uuid this) name
      /\ parents st !! target l = Some (Some a)
      /\ In (matrixEvent (uuid this) name, OnMatrix a) (listeners st)
      /\ In (trackingLostEvent (uuid this) name, OnTrackingLost a v) (listeners st).
Proof.
  induction 1 as [|r st ok st' Hb IH Hdef Hrun|type e st st' Hb IH Hrun].
  - intros t l [].
  - pose proof (attach_step _ _ _ _ _ _ (built_wf _ _ _ Hb) Hdef Hrun) as Hstep.
    destruct ok.
    + destruct Hstep as (c & a & Hatt).
      destruct (attached_content _ _ _ _ _ _ _ _ Hatt) as (_ & _ & Hca).
      destruct Hatt as (N & Hps & _ & _ & _ & _ & Hk & Ht & _ & Hls).
      intros t l Hin Hkind. rewrite Hls in Hin. apply in_app_or in Hin as [Hin|Hin].
      * destruct (IH t l Hin Hkind) as (name & a0 & v & -> & Hp & H1 & H2).
        exists name, a0, v. rewrite Hps, Hls.
        split; [done|]. split; [by apply lookup_app_l_Some|].
        split; apply in_or_app; by left.
      * destruct Hin as [[= <- <-]|[[= <- <-]|[[= <- <-]|[]]]]; try discriminate.
        exists (request_name r), a, (request_visibility r).
        split; [done|]. rewrite Ht. split; [done|]. rewrite Hls.
        split; apply in_or_app; right; simpl; auto.
    + destruct Hstep as (N & Hps & _ & Hls). intros t l Hin Hkind.
      rewrite Hls in Hin. destruct (IH t l Hin Hkind) as (name & a0 & v & -> & Hp & H1 & H2).
      exists name, a0, v. rewrite Hps, Hls.
      split; [done|]. split; [by apply lookup_app_l_Some | done].
  - apply runListeners_frame in Hrun as [Hls Hps]. by rewrite Hls, Hps.
Qed.

(** X14: from the constructor on, through any calls of the attachers (default
    processing), fulfilled or rejected, and any events: the listeners are
    registered under names of their own kind, no two listeners of one kind
    write to the same node, they write to nodes of the scene, and every
    anchor is a node without parent that has exactly one child. *)
Theorem reachable_stores_are_well_formed this w st :
  built this w st ->
  (forall t l, In (t, l) (listeners st) ->
     String.prefix (kindPrefix (kind l)) t = true
     /\ target l < length (meshes st))
  /\ (forall t l t' l',
        In (t, l) (listeners st) -> In (t', l') (listeners st) ->
        kind l = kind l' -> target l = target l' -> (t, l) = (t', l'))
  /\ (forall t a, In (t, OnMatrix a) (listeners st) ->
        exists m c, meshes st !! a = Some m /\ mesh_parent m = None
                    /\ childrenOf st a = [c]).
Proof.
  intros Hb. pose proof (built_wf this w st Hb) as [Hkind Hkey Htarget _ Hanchor].
  rewrite Forall_forall in Hkind. rewrite Forall_forall in Htarget.
  split_and!.
  - intros t l Hin. apply list_elem_of_In in Hin.
    split; [apply (Hkind _ Hin) | apply (Htarget _ Hin)].
  - intros t l t' l' Hin Hin' Hk Ht.
    apply (NoDup_fmap_In _ _ _ _ Hkey); [by apply list_elem_of_In..|].
    simpl. by rewrite Hk, Ht.
  - intros t a Hin. destruct (Hanchor t a Hin) as [Hp Hch].
    apply parents_lookup in Hp as (m & Hm & Hp).
    destruct (childrenOf st a) as [|c [|]]; try discriminate.
    by exists m, c.
Qed.

(** X15: in every store a renderer can reach, a content node is the child of an
    anchor of its own marker: the node a dimension listener writes to has a
    parent, and that parent carries the pose listener and the tracking-lost
    listener registered for the same marker name. *)
Theorem content_stays_under_its_anchor this w st t l :
  built this w st ->
  In (t, l) (listeners st) ->
  kind l = KNFTData ->
  exists name a v m,
    t = nftDataEvent (uuid this) name
    /\ meshes st !! target l = Some m /\ mesh_parent m = Some a
    /\ In (matrixEvent (uuid this) name, OnMatrix a) (listeners st)
    /\ In (trackingLostEvent (uuid this) name, OnTrackingLost a v) (listeners st).
Proof.
  intros Hb Hin Hk.
  destruct (built_paired this w st Hb t l Hin Hk) as (name & a & v & -> & Hp & H1 & H2).
  apply parents_lookup in Hp as (m & Hm & Hp).
  by exists name, a, v, m.
Qed.

(** X16: in every store a renderer can reach, pose events and dimension events
    can arrive in either order, for the same marker or for different ones:
    the first move anchors, the second move content nodes. *)
Theorem pose_and_dimension_events_commute this w st name name' e e' :
  built this w st ->
  dispatchEvent (matrixEvent (uuid this) name) e st
    ≫= dispatchEvent (nftDataEvent (uuid this) name') e'
  = dispatchEvent (nftDataEvent (uuid this) name') e' st
    ≫= dispatchEvent (matrixEvent (uuid this) name) e.
Proof.
  intros Hb. pose proof (built_wf this w st Hb) as Hwf.
  rewrite !dispatch_twice. apply runListeners_commute.
  intros l1 l2 H1 H2 Heq.
  assert (Hk1 : kind l1 = KMatrix).
  { apply (registered_kind st _ l1 _ Hwf H1). intros k'. apply prefix_matrix_kind. }
  assert (Hk2 : kind l2 = KNFTData).
  { apply (registered_kind st _ l2 _ Hwf H2). intros k'. apply prefix_nft_kind. }
  destruct (built_paired this w st Hb _ l2 H2 Hk2) as (? & a & ? & _ & Hp & _).
  destruct l1 as [r| | | |]; try discriminate.
  destruct (wf_anchor st Hwf _ _ H1) as [Hr _].
  simpl in Heq. rewrite <- Heq, Hr in Hp. discriminate.
Qed.

(** X17: in every store a renderer can reach, the events go through: a
    tracking-lost event whatever its payload, a dimension event with its
    three numbers, a pose event whose payload has the sixteen entries.  In
    particular the pose listener never finds its anchor under a parent. *)
Theorem events_are_handled_on_reachable_stores this w st name :
  built this w st ->
  (forall e, exists st',
     dispatchEvent (trackingLostEvent (uuid this) name) e st = Some st'
     /\ built this w st')
  /\ (forall width height dpi, exists st',
        dispatchEvent (nftDataEvent (uuid this) name)
                      (DetailNFT width height dpi) st = Some st'
        /\ built this w st')
  /\ (forall obj, flat16 obj -> exists st',
        dispatchEvent (matrixEvent (uuid this) name) (DetailMatrix obj) st = Some st'
        /\ built this w st').
Proof.
  intros Hb. pose proof (built_wf this w st Hb) as Hwf. split_and!.
  - intros e. destruct (dispatch_trackingLost this name e st Hwf) as (st' & Hrun & _).
    exists st'. split; [done|]. by eapply built_event.
  - intros width height dpi.
    destruct (dispatch_nftData this name width height dpi st Hwf) as (st' & Hrun & _).
    exists st'. split; [done|]. by eapply built_event.
  - intros obj Hflat.
    destruct (dispatch_matrix this name obj st Hwf) as (st' & M & Hrun & _).
    exists st'. split; [done|]. by eapply built_event.
Qed.

(** X18: when [addModel] rejects after a successful import (the default
    processing has thrown), what the importer put into the scene stays
    there: the nodes, the materials, the textures and the animation groups
    of the asset, as they were imported -- nothing is stopped, renamed,
    disposed of or flagged -- and no anchor and no listener is added. *)
Theorem rejected_model_stays_in_the_scene this w args st a e st' :
  fetch w (url args) = inr a ->
  process args = None ->
  addModel this w args st = (Rejected e, st') ->
  meshes st'
  = meshes st ++ (importedMesh a (length (meshes st)) (length (materials st))
                    <$> asset_meshes a)
  /\ materials st' = materials st ++ (importedMaterial <$> asset_materials a)
  /\ animationGroups st'
     = animationGroups st ++ (importedAnimationGroup <$> asset_animationGroups a)
  /\ textures st' = textures st ++ importedTextures a st
  /\ listeners st' = listeners st
  /\ requests st' = requests st ++ [url args].
Proof.
  intros Hf Hp Hadd. rewrite (addModel_run this w args st a Hf), Hp in Hadd.
  simpl default in Hadd.
  destruct (_processModelData _ _ _) as [[model|e'] st2] eqn:Hproc; [discriminate|].
  injection Hadd as _ <-. by apply processModelData_rejected in Hproc as ->.
Qed.

End Further.

(** * The further properties on the sample inputs *)

Section FurtherInstances.

Import Sample.

#[local] Existing Instance engine.

Lemma built_videoScene : built this offline videoScene.
Proof.
  apply (built_attach this offline (ReqVideo video) initialStore true videoScene);
    [apply built_constructor | reflexivity | apply videoScene_attached].
Qed.

Lemma videoScene_trackingLost :
  dispatchEvent (trackingLostEvent (uuid this) "marker-name") DetailNone videoScene
  = Some (updMesh 0 (with_enabled false) videoScene).
Proof. vm_compute. reflexivity. Qed.

Lemma events_only_change_poses_witness :
  wf lostScene
  /\ exists st',
       dispatchEvent (matrixEvent (uuid this) "marker-name") (DetailMatrix ∅)
                     lostScene = Some st'
       /\ unposed <$> meshes st' = unposed <$> meshes lostScene
       /\ listeners st' = listeners lostScene.
Proof.
  split; [apply wf_lostScene|].
  destruct (events_only_change_poses (matrixEvent (uuid this) "marker-name")
              (DetailMatrix ∅) lostScene wf_lostScene)
    as (st' & Hrun & H1 & _ & _ & _ & H5 & _).
  exists st'. split; [exact Hrun|]. split; [exact H1 | exact H5].
Defined.

Lemma events_are_idempotent_witness :
  let st' := updMesh 0 (with_enabled false) videoScene in
  wf videoScene
  /\ dispatchEvent (trackingLostEvent (uuid this) "marker-name") DetailNone videoScene
     = Some st'
  /\ dispatchEvent (trackingLostEvent (uuid this) "marker-name") DetailNone st'
     = Some st'.
Proof.
  intros st'. split; [apply wf_videoScene|]. split; [apply videoScene_trackingLost|].
  exact (events_are_idempotent _ _ _ _ wf_videoScene videoScene_trackingLost).
Defined.

Lemma pose_events_do_not_move_other_markers_witness :
  let other := mkMediaArgs (num:=float) (VString "image.png") "other-marker" None None in
  let st := (attach this offline (ReqImage other) videoScene).2 in
  wf st
  /\ "marker-name" <> "other-marker"
  /\ 0 ∈ anchorsOf this "marker-name" st
  /\ exists st',
       dispatchEvent (matrixEvent (uuid this) "other-marker")
                     (DetailMatrix identityPayload) st = Some st'
       /\ meshes st' !! 0 = meshes st !! 0.
Proof.
  intros other st.
  assert (Hwf : wf st).
  { apply (attach_wf this offline (ReqImage other) videoScene true);
      [apply wf_videoScene | reflexivity | reflexivity]. }
  assert (Hne : "marker-name" <> "other-marker") by discriminate.
  assert (Ha : 0 ∈ anchorsOf this "marker-name" st)
    by (apply elem_of_anchorsOn; vm_compute; auto).
  split; [exact Hwf|]. split; [exact Hne|]. split; [exact Ha|].
  destruct (dispatch_matrix this "other-marker" identityPayload st Hwf)
    as (st' & M & Hrun & _).
  exists st'. split; [exact Hrun|].
  exact (pose_events_do_not_move_other_markers this "marker-name" "other-marker"
           _ st st' 0 Hwf Hne Ha Hrun).
Defined.

Lemma glb_processed :
  let st := importAsset (num:=float) glb initialStore in
  let data := importData (num:=float) glb initialStore in
  _processModelData data (VString "marker-name") st
  = (Fulfilled (mkModel 0 (Some 0) None),
     (_processModelData data (VString "marker-name") st).2).
Proof. vm_compute. reflexivity. Qed.

Lemma default_processing_stops_the_animations_witness :
  let st := importAsset (num:=float) glb initialStore in
  let data := importData (num:=float) glb initialStore in
  let st' := (_processModelData data (VString "marker-name") st).2 in
  _processModelData data (VString "marker-name") st
  = (Fulfilled (mkModel 0 (Some 0) None), st')
  /\ animationGroups st !! 0 = Some (mkAnimationGroup "Animation" true)
  /\ exists ag', animationGroups st' !! 0 = Some ag'
                 /\ ag_playing ag' = false
                 /\ ag_name ag' = "marker-name Animation".
Proof.
  intros st data st'. split; [apply glb_processed|]. split; [reflexivity|].
  destruct (default_processing_stops_the_animations _ _ _ _ _ glb_processed)
    as (H & _ & _).
  destruct (H 0 (mkAnimationGroup "Animation" true) eq_refl) as (ag' & Hag & Hp & Hn).
  exists ag'. split; [exact Hag|]. split; [exact Hp | exact Hn].
Defined.

Lemma default_processing_disposes_the_first_default_light_witness :
  let st := importAsset (num:=float) glb initialStore in
  let data := importData (num:=float) glb initialStore in
  let st' := (_processModelData data (VString "marker-name") st).2 in
  _processModelData data (VString "marker-name") st
  = (Fulfilled (mkModel 0 (Some 0) None), st')
  /\ exists cube light bulb,
       meshes st' !! 1 = Some cube
       /\ mesh_disposed cube = false /\ mesh_parent cube = Some 0
       /\ meshes st' !! 2 = Some light
       /\ mesh_disposed light = true /\ mesh_parent light = None
       /\ meshes st' !! 3 = Some bulb
       /\ mesh_disposed bulb = true /\ mesh_parent bulb = None.
Proof.
  intros st data st'. split; [apply glb_processed|].
  destruct (default_processing_disposes_the_first_default_light _ _ _ _ _ glb_processed)
    as (_ & _ & H & _).
  pose proof (H 1 _ eq_refl) as H1.
  pose proof (H 2 _ eq_refl) as H2.
  pose proof (H 3 _ eq_refl) as H3.
  eexists _, _, _. split; [exact H1|]. do 2 (split; [reflexivity|]).
  split; [exact H2|]. do 2 (split; [reflexivity|]).
  split; [exact H3|]. split; reflexivity.
Defined.

Lemma glb_requested_processed :
  let st0 := set_requests (num:=float) (fun l => l ++ ["model.glb"]) initialStore in
  _processModelData (importData glb st0) (VString "marker-name") (importAsset glb st0)
  = (Fulfilled (mkModel 0 (Some 0) None),
     (_processModelData (importData glb st0) (VString "marker-name")
                        (importAsset glb st0)).2).
Proof. vm_compute. reflexivity. Qed.

Lemma custom_processing_decides_the_content_witness :
  let p := fun data => _processModelData (num:=float) data (VString "marker-name") in
  let args := mkModelArgs (num:=float) "model.glb" "marker-name" None None (Some p) in
  process args = Some p
  /\ fetch online (url args) = inr glb
  /\ exists st' m,
       addModel this online args initialStore
       = (Fulfilled (mkModel 0 (Some 0) None), st')
       /\ meshes st' !! 0 = Some m
       /\ mesh_name m = "marker-name Mesh"
       /\ mesh_parent m = Some 4
       /\ meshes st' !! 4 = Some (newMeshValue "marker-name Root" None).
Proof.
  intros p args. split; [reflexivity|]. split; [reflexivity|].
  destruct (custom_processing_decides_the_content this online args p initialStore glb
              eq_refl eq_refl) as (_ & H).
  destruct (H (mkModel 0 (Some 0) None) _ _ glb_requested_processed eq_refl)
    as (st' & Hadd & Hm & Hroot & _).
  eexists st', _. split; [exact Hadd|]. split; [exact Hm|].
  split; [reflexivity|]. split; [reflexivity | exact Hroot].
Defined.

Lemma model_after_video :
  let st := (addVideo (num:=float) this offline video initialStore).2 in
  addModel this online model st
  = (Fulfilled (mkModel 2 (Some 0) None), (addModel this online model st).2).
Proof. vm_compute. reflexivity. Qed.

Lemma model_after_video_legacy :
  let st := (addVideo (num:=float) this offline video initialStore).2 in
  addModel this legacy model st
  = (Fulfilled (mkModel 2 (Some 0) None), (addModel this legacy model st).2).
Proof. vm_compute. reflexivity. Qed.

Lemma addModel_flags_every_material_witness :
  let st := (addVideo (num:=float) this offline video initialStore).2 in
  let st' := (addModel this online model st).2 in
  let st'' := (addModel this legacy model st).2 in
  addModel this online model st = (Fulfilled (mkModel 2 (Some 0) None), st')
  /\ addModel this legacy model st = (Fulfilled (mkModel 2 (Some 0) None), st'')
  /\ (exists m, materials st !! 0 = Some m
                /\ useLogarithmicDepth m = false
                /\ materials st' !! 0 = Some (with_useLogarithmicDepth true m))
  /\ length (materials st'') = 2
  /\ Forall (fun m => useLogarithmicDepth m = false) (materials st'').
Proof.
  intros st st' st''. split; [apply model_after_video|].
  split; [apply model_after_video_legacy|].
  destruct (addModel_flags_every_material _ _ _ _ _ _ model_after_video) as (_ & H).
  destruct (addModel_flags_every_material _ _ _ _ _ _ model_after_video_legacy)
    as (Hall & _).
  split.
  - eexists. split; [reflexivity|]. split; [reflexivity|].
    exact (H eq_refl 0 _ eq_refl).
  - split; [reflexivity | exact Hall].
Defined.

Lemma attaching_keeps_what_is_there_witness :
  let st := (addVideo (num:=float) this offline video initialStore).2 in
  let st' := (addModel this online model st).2 in
  wf st
  /\ default_processing (ReqModel (model (num:=float))) = true
  /\ attach this online (ReqModel model) st = (true, st')
  /\ exists plane, meshes st !! 1 = Some plane /\ meshes st' !! 1 = Some plane.
Proof.
  intros st st'.
  assert (Hrun : attach this online (ReqModel model) st = (true, st'))
    by (vm_compute; reflexivity).
  split; [apply wf_videoScene|]. split; [reflexivity|]. split; [exact Hrun|].
  destruct (attaching_keeps_what_is_there this online (ReqModel model) st true st'
              wf_videoScene eq_refl Hrun) as (H & _).
  eexists. split; [reflexivity|]. exact (H 1 _ eq_refl).
Defined.

Lemma listeners_only_accumulate_witness :
  let rs := [ReqVideo (video (num:=float)); ReqModel missingModel; ReqImage image] in
  let st' := (attachAll this offline rs initialStore).2 in
  Forall (fun r => default_processing r = true) rs
  /\ attachAll this offline rs initialStore = (2, st')
  /\ exists new, listeners st' = [] ++ new /\ length new = 3 * 2.
Proof.
  intros rs st'.
  assert (Hrs : Forall (fun r => default_processing r = true) rs)
    by (repeat constructor).
  assert (Hrun : attachAll this offline rs initialStore = (2, st'))
    by (vm_compute; reflexivity).
  split; [exact Hrs|]. split; [exact Hrun|].
  exact (listeners_only_accumulate this offline rs initialStore 2 st' Hrs Hrun).
Defined.

Lemma videoScene_targets l1 l2 :
  In (matrixEvent (uuid this) "marker-name", l1) (listeners videoScene) ->
  In (nftDataEvent (uuid this) "marker-name", l2) (listeners videoScene) ->
  target l1 <> target l2.
Proof.
  intros H1 H2.
  assert (Hk1 : kind l1 = KMatrix).
  { apply (registered_kind videoScene _ l1 _ wf_videoScene H1).
    intros k'. apply prefix_matrix_kind. }
  assert (Hk2 : kind l2 = KNFTData).
  { apply (registered_kind videoScene _ l2 _ wf_videoScene H2).
    intros k'. apply prefix_nft_kind. }
  destruct H1 as [H1|[H1|[H1|[]]]]; apply (f_equal snd) in H1; simpl in H1;
    subst l1; try discriminate Hk1.
  destruct H2 as [H2|[H2|[H2|[]]]]; apply (f_equal snd) in H2; simpl in H2;
    subst l2; try discriminate Hk2.
  simpl. lia.
Qed.

Lemma events_on_different_nodes_commute_witness :
  let pose := matrixEvent (uuid this) "marker-name" in
  let size := nftDataEvent (uuid this) "marker-name" in
  wf videoScene
  /\ exists st',
       dispatchEvent pose (DetailMatrix identityPayload) videoScene
         ≫= dispatchEvent size (DetailNFT 800 600 300)%float = Some st'
       /\ dispatchEvent size (DetailNFT 800 600 300)%float videoScene
            ≫= dispatchEvent pose (DetailMatrix identityPayload) = Some st'.
Proof.
  split; [apply wf_videoScene|].
  exact (events_on_different_nodes_commute _ _ _ _ videoScene wf_videoScene
           videoScene_targets).
Defined.

Lemma reachable_stores_are_well_formed_witness :
  built this offline videoScene
  /\ exists m c, meshes videoScene !! 0 = Some m /\ mesh_parent m = None
                 /\ childrenOf videoScene 0 = [c].
Proof.
  split; [apply built_videoScene|].
  destruct (reachable_stores_are_well_formed this offline videoScene built_videoScene)
    as (_ & _ & H).
  apply (H (matrixEvent (uuid this) "marker-name") 0). vm_compute. auto.
Defined.

Lemma content_stays_under_its_anchor_witness :
  built this offline videoScene
  /\ In (nftDataEvent (uuid this) "marker-name", OnNFTData_video 1)
        (listeners videoScene)
  /\ exists name a v m,
       nftDataEvent (uuid this) "marker-name" = nftDataEvent (uuid this) name
       /\ meshes videoScene !! 1 = Some m /\ mesh_parent m = Some a
       /\ In (matrixEvent (uuid this) name, OnMatrix a) (listeners videoScene)
       /\ In (trackingLostEvent (uuid this) name, OnTrackingLost a v)
             (listeners videoScene).
Proof.
  assert (Hin : In (nftDataEvent (uuid this) "marker-name", OnNFTData_video 1)
                   (listeners videoScene)) by (vm_compute; auto).
  split; [apply built_videoScene|]. split; [exact Hin|].
  exact (content_stays_under_its_anchor this offline videoScene _ _
           built_videoScene Hin eq_refl).
Defined.

Lemma pose_and_dimension_events_commute_witness :
  built this offline videoScene
  /\ dispatchEvent (matrixEvent (uuid this) "marker-name")
                   (DetailMatrix identityPayload) videoScene
       ≫= dispatchEvent (nftDataEvent (uuid this) "marker-name")
                        (DetailNFT 800 600 300)%float
     = dispatchEvent (nftDataEvent (uuid this) "marker-name")
                     (DetailNFT 800 600 300)%float videoScene
       ≫= dispatchEvent (matrixEvent (uuid this) "marker-name")
                        (DetailMatrix identityPayload).
Proof.
  split; [apply built_videoScene|].
  exact (pose_and_dimension_events_commute this offline videoScene _ _ _ _
           built_videoScene).
Defined.

Lemma events_are_handled_on_reachable_stores_witness :
  built this offline videoScene
  /\ flat16 identityPayload
  /\ exists st',
       dispatchEvent (matrixEvent (uuid this) "marker-name")
                     (DetailMatrix identityPayload) videoScene = Some st'
       /\ built this offline st'.
Proof.
  split; [apply built_videoScene|]. split; [apply flat16_identityPayload|].
  destruct (events_are_handled_on_reachable_stores this offline videoScene
              "marker-name" built_videoScene) as (_ & _ & H).
  exact (H identityPayload flat16_identityPayload).
Defined.

Lemma rejected_model_stays_in_the_scene_witness :
  let args := mkModelArgs (num:=float) "rootless.glb" "marker-name" None None None in
  let st' := (addModel this online args initialStore).2 in
  fetch online (url args) = inr rootless
  /\ process args = None
  /\ addModel this online args initialStore
     = (Rejected (TypeError "Cannot set properties of undefined (setting 'name')"), st')
  /\ meshes st' = [] ++ (importedMesh rootless 0 0 <$> asset_meshes rootless)
  /\ textures st' = [] ++ [EnvironmentBRDFTexture]
  /\ listeners st' = [].
Proof.
  intros args st'.
  assert (Hrun : addModel this online args initialStore
                 = (Rejected (TypeError "Cannot set properties of undefined (setting 'name')"),
                    st')) by (vm_compute; reflexivity).
  split; [reflexivity|]. split; [reflexivity|]. split; [exact Hrun|].
  destruct (rejected_model_stays_in_the_scene this online args initialStore rootless
              _ st' eq_refl eq_refl Hrun) as (H1 & _ & _ & H4 & H5 & _).
  split; [exact H1|]. split; [exact H4 | exact H5].
Defined.

End FurtherInstances.
